(** * Sales-Data-Analysis: the multi-file processor

    A shallow embedding of [scripts/multi_file_processor.py] (class
    [MultiFileProcessor]) and of [scripts/data_utils.py] ([handle_outliers]),
    with the properties of the schema mapper, the record cleaner, the
    merge engine and the batch driver.

    Conventions of the embedding.
    - A pandas frame is its list of column labels and its list of rows; a
      row carries its index label and one cell per column, by position, so
      that a frame may hold the same label twice, as pandas frames do.
    - A cell is missing ([NaN], standing for NaN, None and NaT), an
      integer ([Int]: an int64 or a Python int), a float ([Num]), a text
      or a timestamp.  Floats are exact rationals ([Qc]): float64 rounding
      is not modelled.
    - pandas gives a column one type, which is read off its cells: a
      column of integers is int64, a column of numbers and missing cells
      is float64, and there an integer cell stands for the float of the
      same value; a column of timestamps is datetime64; any other column
      holds Python objects.
    - In-place updates through a column ([df['Price'].fillna(..., inplace=True)])
      write into the frame, as they do in the pandas versions the script
      targets. *)

From Stdlib Require Import QArith Qcanon Qround Ascii String.
From stdpp Require Import base numbers list sorting strings pretty gmap infinite.

Local Open Scope Qc_scope.

(** * The embedding *)

(** ** Exceptions *)

Inductive exn : Type := TypeError | ValueError | KeyError.

Inductive result (A : Type) : Type :=
  | Ok (a : A)
  | Raise (e : exn).
Arguments Ok {A} a.
Arguments Raise {A} e.

Global Instance result_ret : MRet result := λ A, Ok.
Global Instance result_bind : MBind result := λ A B f m,
  match m with Ok a => f a | Raise e => Raise e end.
Global Instance result_fmap : FMap result := λ A B f m,
  match m with Ok a => Ok (f a) | Raise e => Raise e end.

(** Running [f] over a list, up to the first exception. *)
Fixpoint traverse {A B} (f : A → result B) (l : list A) : result (list B) :=
  match l with
  | [] => Ok []
  | x :: l => y ← f x; ys ← traverse f l; Ok (y :: ys)
  end.

Global Instance exn_eq_dec : EqDecision exn.
Proof. solve_decision. Defined.

Global Instance result_eq_dec `{EqDecision A} : EqDecision (result A).
Proof. solve_decision. Defined.

(** ** Cells, rows and frames *)

Inductive cell : Type :=
  | NaN
  | Int (n : Z)
  | Num (x : Qc)
  | Str (s : string)
  | Time (t : Z).

Global Instance cell_eq_dec : EqDecision cell.
Proof. solve_decision. Defined.

Definition isnull (c : cell) : bool :=
  match c with NaN => true | _ => false end.


(** ** Column types *)

Inductive dtype : Type := int64 | float64 | datetime64 | object.

Global Instance dtype_eq_dec : EqDecision dtype.
Proof. solve_decision. Defined.

Definition is_int (c : cell) : bool :=
  match c with Int _ => true | _ => false end.

Definition is_numeric (c : cell) : bool :=
  match c with NaN | Int _ | Num _ => true | _ => false end.

Definition is_time (c : cell) : bool :=
  match c with NaN | Time _ => true | _ => false end.

(** [col.dtype] *)
Definition dtype_of (col : list cell) : dtype :=
  if forallb is_int col then int64
  else if forallb is_numeric col then float64
  else if forallb is_time col then datetime64
  else object.

(** int64 arithmetic wraps around. *)
Definition wrap64 (n : Z) : Z := ((n + 2 ^ 63) `mod` 2 ^ 64 - 2 ^ 63)%Z.

(** The integer an int64 column stores for a float: a whole number
    within the range. *)
Definition as_int64 (x : Qc) : option Z :=
  let n := Qfloor x in
  if bool_decide (Qc_of_Z n = x ∧ (- 2 ^ 63 ≤ n < 2 ^ 63)%Z) then Some n
  else None.

Record DataFrame : Type := mkDF {
  columns : list string;
  rows : list (nat * list cell)
}.

Global Instance DataFrame_eq_dec : EqDecision DataFrame.
Proof. solve_decision. Defined.

(** Every row has one cell per column. *)
Definition wf (df : DataFrame) : Prop :=
  Forall (λ r : nat * list cell, length r.2 = length (columns df)) (rows df).

(** [len(df)] *)
Definition len (df : DataFrame) : nat := length (rows df).

(** Position of the first column labelled [c]. *)
Definition col_index (cols : list string) (c : string) : option nat :=
  fst <$> list_find (λ x, x = c) cols.

(** [row[c]]: the cell of a row under label [c]. *)
Definition cell_at (cols : list string) (c : string) (r : list cell) : cell :=
  default NaN (col_index cols c ≫= λ i, r !! i).

(** [df[c]]: a column, top to bottom. *)
Definition column (df : DataFrame) (c : string) : list cell :=
  (λ r : nat * list cell, cell_at (columns df) c r.2) <$> rows df.

(** [df.index] *)
Definition index (df : DataFrame) : list nat := fst <$> rows df.

(** Number of columns carrying label [c]. *)
Definition count_label (c : string) (df : DataFrame) : nat :=
  length (filter (λ x, x = c) (columns df)).

(** Writing [v] under every column labelled [c] of one row. *)
Definition set_cells (cols : list string) (c : string) (v : cell)
    (r : list cell) : list cell :=
  zip_with (λ name old, if decide (name = c) then v else old) cols r.

(** [df[c] = f(row)]: an existing label is overwritten in place, a new
    label is appended as the last column. *)
Definition setitem (c : string) (f : list cell → cell) (df : DataFrame)
    : DataFrame :=
  if decide (c ∈ columns df) then
    mkDF (columns df)
         ((λ r : nat * list cell,
             (r.1, set_cells (columns df) c (f r.2) r.2)) <$> rows df)
  else
    mkDF (columns df ++ [c])
         ((λ r : nat * list cell, (r.1, r.2 ++ [f r.2])) <$> rows df).

(** Applying [g] to every cell under label [c]. *)
Definition map_column (c : string) (g : cell → cell) (df : DataFrame)
    : DataFrame :=
  setitem c (λ r, g (cell_at (columns df) c r)) df.

(** ** Numeric columns: median, quantile, clamp *)

(** The float view of a cell: missing, a number, or [TypeError]. *)
Definition to_float (c : cell) : result (option Qc) :=
  match c with
  | NaN => Ok None
  | Int n => Ok (Some (Qc_of_Z n))
  | Num x => Ok (Some x)
  | Str _ | Time _ => Raise TypeError
  end.

Fixpoint as_numeric (col : list cell) : result (list (option Qc)) :=
  match col with
  | [] => Ok []
  | c :: col => x ← to_float c; q ← as_numeric col; Ok (x :: q)
  end.

(** The non-missing numbers of a column ([dropna]). *)
Definition numbers (col : list (option Qc)) : list Qc := omap id col.

Definition of_float (x : option Qc) : cell :=
  match x with Some q => Num q | None => NaN end.

(** [Series.median()]: missing values are skipped; the mean of the two
    middle values when their number is even; missing when there is none. *)
Definition median (col : list (option Qc)) : option Qc :=
  let s := merge_sort Qcle (numbers col) in
  let n := length s in
  if decide (n = 0)%nat then None
  else if Nat.even n
       then Some ((nth (n / 2 - 1) s 0 + nth (n / 2) s 0) / Q2Qc 2)
       else Some (nth (n / 2) s 0).

(** [Series.quantile(q)] with the default linear interpolation: over the
    sorted non-missing values [s] of length [n], the virtual index is
    [h = q * (n - 1)] and the result is
    [s[floor h] + (h - floor h) * (s[floor h + 1] - s[floor h])]. *)
Definition virtual_index (q : Qc) (m : nat) : Qc := q * Qc_of_Z (Z.of_nat m).

Definition quantile (q : Qc) (col : list (option Qc)) : option Qc :=
  let s := merge_sort Qcle (numbers col) in
  match length s with
  | O => None
  | S m =>
      let h := virtual_index q m in
      let lo := Z.to_nat (Qfloor h) in
      let frac := h - Qc_of_Z (Qfloor h) in
      let a := nth lo s 0 in
      let b := nth (Nat.min (lo + 1) m) s 0 in
      Some (a + frac * (b - a))
  end.

(** [Q3 + 1.5 * IQR]; missing when the quantiles are. *)
Definition upper_bound (col : list (option Qc)) : option Qc :=
  match quantile (Q2Qc (1 # 4)) col, quantile (Q2Qc (3 # 4)) col with
  | Some Q1, Some Q3 =>
      let IQR := Q3 - Q1 in
      Some (Q3 + Q2Qc (3 # 2) * IQR)
  | _, _ => None
  end.

(** [x > bound]; a comparison with a missing operand is false. *)
Definition gt (x : option Qc) (bound : option Qc) : bool :=
  match x, bound with
  | Some a, Some b => bool_decide (b < a)
  | _, _ => false
  end.

(** [col[col > upper_bound] = upper_bound] on a numeric column, the
    bound being recomputed from the column ([handle_outliers]). *)
Definition clamp_with (bound : option Qc) (col : list (option Qc))
    : list (option Qc) :=
  (λ x, if gt x bound then bound else x) <$> col.


(** ** The record cleaner: [basic_data_cleaning] *)

Definition float_of (c : cell) : option Qc :=
  match c with
  | Int n => Some (Qc_of_Z n)
  | Num x => Some x
  | _ => None
  end.

(** [df[c].fillna(v, inplace=True)] *)
Definition fillna (c : string) (v : cell) (df : DataFrame) : DataFrame :=
  map_column c (λ old, if isnull old then v else old) df.

(** [df.drop_duplicates(inplace=True)]: a row equal, cell by cell, to an
    earlier row is dropped; kept rows keep their index labels. *)
Fixpoint dedup_rows (seen : list (list cell)) (rs : list (nat * list cell))
    : list (nat * list cell) :=
  match rs with
  | [] => []
  | r :: rs =>
      if decide (r.2 ∈ seen) then dedup_rows seen rs
      else r :: dedup_rows (r.2 :: seen) rs
  end.

Definition drop_duplicates (df : DataFrame) : DataFrame :=
  mkDF (columns df) (dedup_rows [] (rows df)).

Definition required_cols : list string :=
  ["Order_ID"; "Product"; "Quantity"; "Price"; "Order_Date"; "Region"]%string.

Definition has_sales_data (df : DataFrame) : bool :=
  forallb (λ c, bool_decide (c ∈ columns df)) required_cols.

(** Step 1: missing prices are filled with the median of the column.
    A label held by two columns selects a sub-frame, and the test
    [price_missing_before > 0] on it raises. *)
Definition fill_price (df : DataFrame) : result DataFrame :=
  if decide (count_label "Price" df = 1%nat) then
    let price := column df "Price" in
    let price_missing_before := length (filter (λ c, isnull c = true) price) in
    if decide (0 < price_missing_before)%nat then
      p ← as_numeric price;
      let price_median := median p in
      Ok (fillna "Price" (of_float price_median) df)
    else Ok df
  else Raise ValueError.

(** Step 2: missing regions become ["Unknown"]. *)
Definition fill_region (df : DataFrame) : result DataFrame :=
  if decide (count_label "Region" df = 1%nat) then
    let region_missing_before :=
      length (filter (λ c, isnull c = true) (column df "Region")) in
    if decide (0 < region_missing_before)%nat then
      Ok (fillna "Region" (Str "Unknown") df)
    else Ok df
  else Raise ValueError.

(** [col[col > bound] = bound] on one cell of a column of type [dt].
    The bound is a float.  An int64 column stores a bound that is a whole
    number as an integer and stays int64; for any other bound the whole
    column is converted to float64, also when no cell is above the bound. *)
Definition set_above (dt : dtype) (bound : option Qc) (old : cell) : cell :=
  match dt, bound, old with
  | int64, Some b, Int n =>
      match as_int64 b with
      | Some k => if bool_decide (b < Qc_of_Z n) then Int k else Int n
      | None => Num (if bool_decide (b < Qc_of_Z n) then b else Qc_of_Z n)
      end
  | _, _, _ => if gt (float_of old) bound then of_float bound else old
  end.

(** Step 5: the IQR clamp of [Quantity]:
    [df.loc[df['Quantity'] > upper_bound, 'Quantity'] = upper_bound]. *)
Definition clamp_quantity (df : DataFrame) : result DataFrame :=
  if decide (count_label "Quantity" df = 1%nat) then
    q ← as_numeric (column df "Quantity");
    let bound := upper_bound q in
    Ok (map_column "Quantity"
          (set_above (dtype_of (column df "Quantity")) bound) df)
  else Raise ValueError.

(** Step 6: [df['Sales'] = df['Quantity'] * df['Price']]. *)

(** [n * s] on an integer and a text: the text [n] times, the empty
    text for [n <= 0]. *)
Definition repeat_text (n : Z) (s : string) : string :=
  Nat.iter (Z.to_nat n) (String.append s) ""%string.

(** [x * y] on two Python objects that are not missing: integers are
    unbounded, an integer repeats a text, and a float, a text or a
    timestamp does not multiply a text or a timestamp. *)
Definition py_mul (x y : cell) : result cell :=
  match x, y with
  | Int a, Int b => Ok (Int (a * b))
  | Int a, Num b => Ok (Num (Qc_of_Z a * b))
  | Num a, Int b => Ok (Num (a * Qc_of_Z b))
  | Num a, Num b => Ok (Num (a * b))
  | Int n, Str s | Str s, Int n => Ok (Str (repeat_text n s))
  | _, _ => Raise TypeError
  end.

(** The object pandas hands to Python for a cell of a column of type
    [dt]: the cells of a float64 column are floats. *)
Definition element (dt : dtype) (c : cell) : cell :=
  match dt, c with
  | float64, Int n => Num (Qc_of_Z n)
  | _, _ => c
  end.

(** One row of [quantity * price], the columns being of types [dq] and
    [dp].  Two int64 columns multiply in int64; two numeric columns of
    which one is float64 multiply as floats, a missing operand giving a
    missing product; a datetime64 column does not multiply.  When one
    column holds objects the rows are multiplied by Python, one by one,
    a row with a missing operand being left missing. *)
Definition mul_value (dq dp : dtype) (q p : cell) : result cell :=
  if decide (dq = datetime64 ∨ dp = datetime64) then Raise TypeError
  else if decide (dq = int64 ∧ dp = int64) then
    Ok (match q, p with
        | Int a, Int b => Int (wrap64 (a * b))
        | _, _ => NaN
        end)
  else if decide (dq ≠ object ∧ dp ≠ object) then
    Ok (match float_of q, float_of p with
        | Some a, Some b => Num (a * b)
        | _, _ => NaN
        end)
  else if isnull q || isnull p then Ok NaN
  else py_mul (element dq q) (element dp p).

Definition row_product (df : DataFrame) (r : list cell) : result cell :=
  mul_value (dtype_of (column df "Quantity")) (dtype_of (column df "Price"))
            (cell_at (columns df) "Quantity" r)
            (cell_at (columns df) "Price" r).

(** The value of a product that does not raise. *)
Definition value_of (v : result cell) : cell :=
  match v with Ok c => c | Raise _ => NaN end.

(** The steps before this one have read both labels, each held by one
    column.  The product is computed for the whole column, so one row
    that raises leaves the frame without [Sales]. *)
Definition derive_sales (df : DataFrame) : result DataFrame :=
  _ ← traverse (row_product df) (snd <$> rows df);
  Ok (setitem "Sales" (λ r, value_of (row_product df r)) df).

(** What [pd.to_numeric] reads in a text: an integer or a float. *)
Inductive number : Type := Integer (n : Z) | Float (x : Qc).

Definition of_number (v : number) : cell :=
  match v with Integer n => Int n | Float x => Num x end.

Section parsers.
(** The parsers behind [pd.to_datetime] and [pd.to_numeric] belong to
    pandas; the cleaner is parametric in them. *)
Variable parse_datetime : cell → option Z.
Variable parse_number : string → option number.

(** [pd.to_datetime(., errors='coerce')] on one cell *)
Definition to_datetime (c : cell) : cell :=
  match c with
  | NaN => NaN
  | Time t => Time t
  | _ => match parse_datetime c with Some t => Time t | None => NaN end
  end.

(** [pd.to_numeric(., errors='coerce')] on one cell *)
Definition to_numeric (c : cell) : cell :=
  match c with
  | NaN => NaN
  | Int n => Int n
  | Num x => Num x
  | Str s => match parse_number s with Some v => of_number v | None => NaN end
  | Time t => Int t
  end.

(** Steps 4 and the date loop of the partial mode: the conversion sits
    in a [try]; on a duplicated label [pd.to_datetime] receives a
    sub-frame, raises, and the column is left as it was. *)
Definition parse_dates (c : string) (df : DataFrame) : DataFrame :=
  if decide (count_label c df = 1%nat) then map_column c to_datetime df
  else df.

(** Step 7 and the numeric loop of the partial mode:
    [for col in cols: if col in df.columns: df[col] = pd.to_numeric(...)];
    on a duplicated label [pd.to_numeric] receives a sub-frame and
    raises [TypeError]. *)
Fixpoint coerce_numeric (cs : list string) (df : DataFrame)
    : result DataFrame :=
  match cs with
  | [] => Ok df
  | c :: cs =>
      if decide (c ∈ columns df) then
        if decide (count_label c df = 1%nat)
        then coerce_numeric cs (map_column c to_numeric df)
        else Raise TypeError
      else coerce_numeric cs df
  end.

Definition parse_date_columns (cs : list string) (df : DataFrame)
    : DataFrame :=
  foldl (λ d c, if decide (c ∈ columns d) then parse_dates c d else d) df cs.

Definition basic_data_cleaning (df : DataFrame) : result DataFrame :=
  let df_clean := df in
  if has_sales_data df_clean then
    df_clean ← fill_price df_clean;
    df_clean ← fill_region df_clean;
    let df_clean := drop_duplicates df_clean in
    let df_clean := parse_dates "Order_Date" df_clean in
    df_clean ← clamp_quantity df_clean;
    df_clean ← derive_sales df_clean;
    coerce_numeric ["Quantity"; "Price"; "Sales"]%string df_clean
  else
    let df_clean :=
      parse_date_columns ["Order_Date"; "date"; "Date"]%string df_clean in
    coerce_numeric ["Quantity"; "Price"; "Sales"]%string df_clean.

End parsers.

(** ** The outlier step of [data_utils.py] *)


(** ** The schema mapper: [standardize_columns] *)

(** [str.lower()] and [str.strip()], on the ASCII range: the letters
    [A]-[Z] are lowered, the characters 9-13 and 28-32 are whitespace;
    other bytes are left as they are. *)
Definition lower_ascii (a : ascii) : ascii :=
  let n := nat_of_ascii a in
  if (65 <=? n)%nat && (n <=? 90)%nat then ascii_of_nat (n + 32) else a.

Fixpoint lower (s : string) : string :=
  match s with
  | EmptyString => EmptyString
  | String a s => String (lower_ascii a) (lower s)
  end.

Definition isspace (a : ascii) : bool :=
  let n := nat_of_ascii a in
  ((9 <=? n)%nat && (n <=? 13)%nat) || ((28 <=? n)%nat && (n <=? 32)%nat).

Fixpoint lstrip (s : string) : string :=
  match s with
  | EmptyString => EmptyString
  | String a s' => if isspace a then lstrip s' else s
  end.

Definition strip (s : string) : string :=
  String.rev (lstrip (String.rev (lstrip s))).

Definition column_mapping : gmap string string :=
  list_to_map
    [ ("order_id", "Order_ID"); ("orderid", "Order_ID");
      ("invoice", "Order_ID"); ("invoiceno", "Order_ID");
      ("transaction_id", "Order_ID");
      ("product", "Product"); ("product_name", "Product");
      ("description", "Product"); ("stockcode", "Product");
      ("item", "Product");
      ("quantity", "Quantity"); ("qty", "Quantity"); ("amount", "Quantity");
      ("price", "Price"); ("unit_price", "Price"); ("unitprice", "Price");
      ("cost", "Price");
      ("date", "Order_Date"); ("order_date", "Order_Date");
      ("invoicedate", "Order_Date"); ("transaction_date", "Order_Date");
      ("region", "Region"); ("country", "Region"); ("location", "Region");
      ("area", "Region");
      ("customer", "Customer_ID"); ("customer_id", "Customer_ID");
      ("customerid", "Customer_ID") ]%string.

(** The new label of a source column. *)
Definition new_label (col : string) : string :=
  let col_lower := strip (lower col) in
  match column_mapping !! col_lower with
  | Some canonical => canonical
  | None => col
  end.

(** The loop that builds the [new_columns] dictionary. *)
Definition build_new_columns (original_columns : list string)
    : gmap string string :=
  foldl (λ new_columns col, <[col := new_label col]> new_columns)
        ∅ original_columns.

(** [df.rename(columns=new_columns, inplace=True)]: every label is looked
    up in the dictionary; columns keep their position and their cells. *)
Definition rename (new_columns : gmap string string) (df : DataFrame)
    : DataFrame :=
  mkDF ((λ c, default c (new_columns !! c)) <$> columns df) (rows df).

Definition standardize_columns (df : DataFrame) (file_name : string)
    : DataFrame * gmap string string :=
  let df_copy := df in
  let original_columns := columns df_copy in
  let new_columns := build_new_columns original_columns in
  let df_copy := rename new_columns df_copy in
  let df_copy := setitem "Source_File" (λ _, Str file_name) df_copy in
  (df_copy, new_columns).

(** ** Frames as objects

    The script passes frames by reference: [df.copy()] allocates a new
    frame, [rename(..., inplace=True)], [fillna(..., inplace=True)],
    [drop_duplicates(inplace=True)], [df.loc[...] = ...] and
    [df[c] = ...] write into the frame they are called on.  A store maps
    object identities to frames; a computation threads the store and may
    raise. *)

Abbreviation store := (gmap nat DataFrame).

Definition M (A : Type) : Type := store → store * result A.

Definition ret {A} (a : A) : M A := λ σ, (σ, Ok a).

Definition bind {A B} (m : M A) (k : A → M B) : M B := λ σ,
  match m σ with
  | (σ', Ok a) => k a σ'
  | (σ', Raise e) => (σ', Raise e)
  end.

Notation "'let*' x ':=' m 'in' k" := (bind m (λ x, k))
  (at level 10, x name, m at level 100, k at level 200).

(** [df.copy()]: a new object holding the same frame. *)
Definition copy (l : nat) : M nat := λ σ,
  match σ !! l with
  | Some df => let l' := fresh (dom σ) in (<[l' := df]> σ, Ok l')
  | None => (σ, Raise KeyError)
  end.

(** Reading from an object. *)
Definition read {A} (l : nat) (f : DataFrame → A) : M A := λ σ,
  match σ !! l with
  | Some df => (σ, Ok (f df))
  | None => (σ, Raise KeyError)
  end.

(** Writing into an object; an exception leaves it as it was. *)
Definition update (l : nat) (f : DataFrame → result DataFrame) : M unit := λ σ,
  match σ !! l with
  | Some df =>
      match f df with
      | Ok df' => (<[l := df']> σ, Ok ())
      | Raise e => (σ, Raise e)
      end
  | None => (σ, Raise KeyError)
  end.

Definition standardize_columns_obj (df : nat) (file_name : string)
    : M (nat * gmap string string) :=
  let* df_copy := copy df in
  let* original_columns := read df_copy columns in
  let new_columns := build_new_columns original_columns in
  let* _ := update df_copy (λ d, Ok (rename new_columns d)) in
  let* _ := update df_copy
              (λ d, Ok (setitem "Source_File" (λ _, Str file_name) d)) in
  ret (df_copy, new_columns).

Section objects.
Variable parse_datetime : cell → option Z.
Variable parse_number : string → option number.

Fixpoint coerce_numeric_obj (cs : list string) (df_clean : nat) : M unit :=
  match cs with
  | [] => ret ()
  | c :: cs =>
      let* present := read df_clean (λ d, bool_decide (c ∈ columns d)) in
      if present : bool then
        let* _ := update df_clean (λ d,
                    if decide (count_label c d = 1%nat)
                    then Ok (map_column c (to_numeric parse_number) d)
                    else Raise TypeError) in
        coerce_numeric_obj cs df_clean
      else coerce_numeric_obj cs df_clean
  end.

Fixpoint parse_date_columns_obj (cs : list string) (df_clean : nat)
    : M unit :=
  match cs with
  | [] => ret ()
  | c :: cs =>
      let* present := read df_clean (λ d, bool_decide (c ∈ columns d)) in
      if present : bool then
        let* _ := update df_clean
                    (λ d, Ok (parse_dates parse_datetime c d)) in
        parse_date_columns_obj cs df_clean
      else parse_date_columns_obj cs df_clean
  end.

Definition basic_data_cleaning_obj (df : nat) : M nat :=
  let* df_clean := copy df in
  let* has_sales := read df_clean has_sales_data in
  if has_sales : bool then
    let* _ := update df_clean fill_price in
    let* _ := update df_clean fill_region in
    let* _ := update df_clean (λ d, Ok (drop_duplicates d)) in
    let* _ := update df_clean
                (λ d, Ok (parse_dates parse_datetime "Order_Date" d)) in
    let* _ := update df_clean clamp_quantity in
    let* _ := update df_clean derive_sales in
    let* _ := coerce_numeric_obj ["Quantity"; "Price"; "Sales"]%string
                df_clean in
    ret df_clean
  else
    let* _ := parse_date_columns_obj ["Order_Date"; "date"; "Date"]%string
                df_clean in
    let* _ := coerce_numeric_obj ["Quantity"; "Price"; "Sales"]%string
                df_clean in
    ret df_clean.

End objects.

(** ** The merge engine: [combine_all_data] *)

(** [df.reset_index(drop=True)] and [ignore_index=True]: rows are
    relabelled 0, 1, 2, ... *)
Definition reset_rows (rs : list (nat * list cell)) : list (nat * list cell) :=
  imap (λ i r, (i, r.2)) rs.

Definition reset_index (df : DataFrame) : DataFrame :=
  mkDF (columns df) (reset_rows (rows df)).

(** [df[cs]] for a list of labels: the columns [cs], in that order, each
    read by its label; a label the frame lacks gives missing cells. *)
Definition select (cs : list string) (df : DataFrame) : DataFrame :=
  mkDF cs ((λ r : nat * list cell,
              (r.1, (λ c, cell_at (columns df) c r.2) <$> cs)) <$> rows df).

(** [df.reindex(columns=cs)] refuses a frame with a duplicated label. *)
Definition reindex (cs : list string) (df : DataFrame) : result DataFrame :=
  if decide (NoDup (columns df)) then Ok (select cs df) else Raise ValueError.

(** Labels in the order of their first appearance. *)
Definition ordered_union (ls : list (list string)) : list string :=
  foldl (λ acc c, if decide (c ∈ acc) then acc else acc ++ [c]) [] (mjoin ls).

(** [pd.concat(dfs, ignore_index=True)]: the columns are the union of
    the frames' columns in order of first appearance; a frame that has
    other columns is re-indexed to them; the rows follow one another in
    the order of the frames. *)
Definition align (cols : list string) (df : DataFrame) : result DataFrame :=
  if decide (columns df = cols) then Ok df else reindex cols df.

Definition concat (dfs : list DataFrame) : result DataFrame :=
  match dfs with
  | [] => Raise ValueError
  | _ =>
      let cols := ordered_union (columns <$> dfs) in
      aligned ← traverse (align cols) dfs;
      Ok (mkDF cols (reset_rows (mjoin (rows <$> aligned))))
  end.

(** The inner [while new_col in seen] loop: the first of [col_1],
    [col_2], ... that is not in [seen].  [seen] is finite, so [size seen]
    failed tries are enough before a free name comes. *)
Fixpoint fresh_suffix (fuel : nat) (seen : gset string) (col : string)
    (counter : nat) : string :=
  let new_col := (col +:+ "_" +:+ pretty counter)%string in
  match fuel with
  | O => new_col
  | S fuel =>
      if decide (new_col ∈ seen) then fresh_suffix fuel seen col (S counter)
      else new_col
  end.

(** The loop that gives a suffix to every repeated label. *)
Fixpoint fix_duplicates (seen : gset string) (cols : list string)
    : list string :=
  match cols with
  | [] => []
  | col :: cols =>
      let col' := if decide (col ∈ seen)
                  then fresh_suffix (size seen) seen col 1 else col in
      col' :: fix_duplicates ({[col']} ∪ seen) cols
  end.

(** The first loop of [combine_all_data]: empty frames are skipped, the
    others are copied, re-indexed from 0 and given unique labels. *)
Definition prepare_one (df : DataFrame) : DataFrame :=
  let df_copy := reset_index df in
  if decide (NoDup (columns df_copy)) then df_copy
  else mkDF (fix_duplicates ∅ (columns df_copy)) (rows df_copy).

Definition prepare (processed_files : list (string * DataFrame))
    : list DataFrame :=
  omap (λ '(file_name, df),
          if decide (0 < len df)%nat then Some (prepare_one df) else None)
       processed_files.

(** Tier 1: every frame gets the missing columns, filled with NaN, and
    is re-indexed to the sorted union of all labels; the frames are then
    concatenated. *)
Definition all_columns_of (dfs : list DataFrame) : gset string :=
  foldl (λ all df, all ∪ list_to_set (columns df)) ∅ dfs.

Definition add_missing (all_columns : gset string) (df : DataFrame)
    : DataFrame :=
  let missing_cols := elements (all_columns ∖ list_to_set (columns df)) in
  foldl (λ df_std col, setitem col (λ _, NaN) df_std) df missing_cols.

Definition sorted_labels (all_columns : gset string) : list string :=
  merge_sort String.le (elements all_columns).

Definition full_union_merge (combined_data_list : list DataFrame)
    : result DataFrame :=
  let all_columns := all_columns_of combined_data_list in
  standardized_dfs ←
    traverse (λ df, reindex (sorted_labels all_columns)
                            (add_missing all_columns df))
             combined_data_list;
  concat standardized_dfs.

(** Tier 2: frames are grouped by signature (their sorted labels), each
    group is concatenated, and the groups are folded together: on their
    common columns when there are some, on the union of their columns
    otherwise. *)
Definition signature (df : DataFrame) : list string :=
  merge_sort String.le (columns df).

Fixpoint add_to_group (sig : list string) (df : DataFrame)
    (groups : list (list string * list DataFrame))
    : list (list string * list DataFrame) :=
  match groups with
  | [] => [(sig, [df])]
  | (sig', dfs) :: groups =>
      if decide (sig' = sig) then (sig', dfs ++ [df]) :: groups
      else (sig', dfs) :: add_to_group sig df groups
  end.

Definition group_by_columns (dfs : list DataFrame)
    : list (list string * list DataFrame) :=
  foldl (λ groups df, add_to_group (signature df) df groups) [] dfs.

Definition merge_group (df_group : list DataFrame) : result DataFrame :=
  match df_group with
  | [df] => Ok df
  | _ => concat df_group
  end.

Definition add_absent (cols : list string) (df : DataFrame) : DataFrame :=
  foldl (λ d col, if decide (col ∈ columns d) then d
                  else setitem col (λ _, NaN) d) df cols.

Definition merge_pair (combined df : DataFrame) : result DataFrame :=
  let common_cols :=
    elements ((list_to_set (columns combined) : gset string)
              ∩ list_to_set (columns df)) in
  match common_cols with
  | _ :: _ => concat [select common_cols combined; select common_cols df]
  | [] =>
      let all_cols :=
        elements ((list_to_set (columns combined) : gset string)
                  ∪ list_to_set (columns df)) in
      let combined' := add_absent (columns df) combined in
      let df_extended := add_absent (columns combined') df in
      combined' ← reindex all_cols combined';
      df_extended ← reindex all_cols df_extended;
      concat [combined'; df_extended]
  end.

Fixpoint merge_groups (combined : DataFrame) (rest : list DataFrame)
    : result DataFrame :=
  match rest with
  | [] => Ok combined
  | df :: rest => combined ← merge_pair combined df; merge_groups combined rest
  end.

Definition signature_grouped_merge (combined_data_list : list DataFrame)
    : result DataFrame :=
  merged_groups ← traverse (λ g : list string * list DataFrame, merge_group g.2)
                           (group_by_columns combined_data_list);
  match merged_groups with
  | [] => Raise ValueError
  | first :: rest => merge_groups first rest
  end.

(** [combine_all_data]: [None] is the empty-result signal. *)
Definition combine_all_data (processed_files : list (string * DataFrame))
    : option DataFrame :=
  match processed_files with
  | [] => None
  | _ =>
      let combined_data_list := prepare processed_files in
      match combined_data_list with
      | [] => None
      | _ =>
          match full_union_merge combined_data_list with
          | Ok combined_data => Some combined_data
          | Raise _ =>
              match signature_grouped_merge combined_data_list with
              | Ok combined_data => Some combined_data
              | Raise _ => None
              end
          end
      end
  end.

(** ** The batch driver: [process_multiple_files] *)

(** [Path(file_path).name] on POSIX paths: the last component that is
    neither empty nor [.]; the empty string when there is none. *)
Fixpoint components (cur : string) (s : string) : list string :=
  match s with
  | EmptyString => [String.rev cur]
  | String a s' =>
      if decide (a = "/"%char) then String.rev cur :: components EmptyString s'
      else components (String a cur) s'
  end.

Definition path_name (file_path : string) : string :=
  List.last
    (filter (λ c, c ≠ EmptyString ∧ c ≠ "."%string)
            (components EmptyString file_path))
    EmptyString.

(** One entry of the [results] dictionary. *)
Inductive outcome (Data : Type) : Type :=
  | Success (data : Data) (file_path : string)
  | Failed (error : string) (file_path : string).
Arguments Success {Data} data file_path.
Arguments Failed {Data} error file_path.

Definition recorded_path {Data} (o : outcome Data) : string :=
  match o with Success _ p | Failed _ p => p end.

Section driver.
(** The session ([self] and the world the callbacks see) and what a
    processed file yields are left open, and so are the function that
    processes one file, which returns its data or raises an exception
    with a message, and the function that takes the name of a path. *)
Context {St Data : Type}.
Variable name_of : string → string.
Variable process_single_file : string → St → St * (Data + string).

(** A progress callback is called with [(current, total, message)] and
    may raise. *)
Definition callback : Type := nat → nat → string → St → St * option string.

Definition notify (progress_callback : option callback)
    (current total : nat) (message : string) (s : St) : St * option string :=
  match progress_callback with
  | Some f => f current total message s
  | None => (s, None)
  end.

Definition progress_message (i total : nat) (name : string) : string :=
  ("正在处理文件 " +:+ pretty i +:+ "/" +:+ pretty total +:+ ": " +:+ name)%string.

(** The body of the loop: the [try] block and its [except] clause. *)
Definition process_entry (progress_callback : option callback)
    (i total_files : nat) (file_path : string) (s : St)
    : St * outcome Data :=
  let '(s, raised) :=
    notify progress_callback (i - 1) total_files
           (progress_message i total_files (name_of file_path)) s in
  match raised with
  | Some e => (s, Failed e file_path)
  | None =>
      let '(s, r) := process_single_file file_path s in
      match r with
      | inl data => (s, Success data file_path)
      | inr e => (s, Failed e file_path)
      end
  end.

Fixpoint process_loop (progress_callback : option callback)
    (i total_files : nat) (file_paths : list string)
    (results : gmap string (outcome Data)) (s : St)
    : St * gmap string (outcome Data) :=
  match file_paths with
  | [] => (s, results)
  | file_path :: rest =>
      let '(s, o) := process_entry progress_callback i total_files file_path s in
      process_loop progress_callback (S i) total_files rest
                   (<[name_of file_path := o]> results) s
  end.

(** The result is the dictionary, or the message of an exception that
    escapes to the caller. *)
Definition process_multiple_files (file_paths : list string)
    (progress_callback : option callback) (s : St)
    : St * (gmap string (outcome Data) + string) :=
  let total_files := length file_paths in
  let '(s, results) :=
    process_loop progress_callback 1 total_files file_paths ∅ s in
  let '(s, raised) :=
    notify progress_callback total_files total_files "所有文件处理完成" s in
  match raised with
  | Some e => (s, inr e)
  | None => (s, inl results)
  end.

End driver.

(** * Definitions for the statements *)

(** ** Quantiles *)

(** The numbers of a column, in increasing order. *)
Definition sorted_numbers (col : list (option Qc)) : list Qc :=
  merge_sort Qcle (numbers col).








(** ** The cleaning pipeline, step by step *)

(** A column with the index label of each cell. *)
Definition labelled (df : DataFrame) (c : string) : list (nat * cell) :=
  (λ r : nat * list cell, (r.1, cell_at (columns df) c r.2)) <$> rows df.

(** [fillna] on one cell. *)
Definition fill (v old : cell) : cell := if isnull old then v else old.

(** What the full mode needs of its input: one cell per column in every
    row, the labels it reads held by one column each, and numeric
    [Price] and [Quantity] columns (integers, floats and missing cells;
    no text, no timestamp). *)
Definition full_mode_ready (df : DataFrame) : Prop :=
  wf df ∧
  count_label "Price" df = 1%nat ∧
  count_label "Region" df = 1%nat ∧
  count_label "Quantity" df = 1%nat ∧
  (count_label "Sales" df ≤ 1)%nat ∧
  Forall (λ c, is_numeric c = true) (column df "Price") ∧
  Forall (λ c, is_numeric c = true) (column df "Quantity").

(** The part of it that every step keeps. *)
Definition numeric_frame (cols : list string) (df : DataFrame) : Prop :=
  wf df ∧ columns df = cols ∧
  Forall (λ c, is_numeric c = true) (column df "Price") ∧
  Forall (λ c, is_numeric c = true) (column df "Quantity").

Section stages.
Variable parse_datetime : cell → option Z.
Variable parse_number : string → option number.

(** [Quantity * Price] of a row of [df]. *)
Definition sales_of (df : DataFrame) (r : list cell) : cell :=
  value_of (row_product df r).

(** The frames the full mode goes through, in closed form. *)
Definition after_price (df : DataFrame) : DataFrame :=
  map_column "Price"
    (fill (of_float (median (float_of <$> column df "Price")))) df.

Definition after_region (df : DataFrame) : DataFrame :=
  map_column "Region" (fill (Str "Unknown")) (after_price df).

Definition after_dates (df : DataFrame) : DataFrame :=
  parse_dates parse_datetime "Order_Date" (drop_duplicates (after_region df)).

Definition after_clamp (df : DataFrame) : DataFrame :=
  map_column "Quantity"
    (set_above (dtype_of (column (after_dates df) "Quantity"))
       (upper_bound (float_of <$> column (after_dates df) "Quantity")))
    (after_dates df).

Definition full_mode_result (df : DataFrame) : DataFrame :=
  setitem "Sales" (sales_of (after_clamp df)) (after_clamp df).

End stages.

(** ** Objects: what a computation may write *)

(** [m] writes to no object other than [l]. *)
Definition touches_only {A} (l : nat) (m : M A) : Prop :=
  ∀ σ l0, l0 ≠ l → (m σ).1 !! l0 = σ !! l0.

(** On the object [l], [m] behaves as the function [f] on frames, and
    returns [a] when [f] returns. *)
Definition runs_as {A} (l : nat) (m : M A)
    (f : DataFrame → result DataFrame) (a : A) : Prop :=
  ∀ σ d, σ !! l = Some d →
    ∃ σ', m σ = (σ', (λ _, a) <$> f d) ∧
          ∀ d', f d = Ok d' → σ' !! l = Some d'.

(** [basic_data_cleaning] after its first line, the copy. *)
Definition cleaning_body (parse_datetime : cell → option Z)
    (parse_number : string → option number) (df_clean : nat) : M nat :=
  let* has_sales := read df_clean has_sales_data in
  if has_sales : bool then
    let* _ := update df_clean fill_price in
    let* _ := update df_clean fill_region in
    let* _ := update df_clean (λ d, Ok (drop_duplicates d)) in
    let* _ := update df_clean
                (λ d, Ok (parse_dates parse_datetime "Order_Date" d)) in
    let* _ := update df_clean clamp_quantity in
    let* _ := update df_clean derive_sales in
    let* _ := coerce_numeric_obj parse_number
                ["Quantity"; "Price"; "Sales"]%string df_clean in
    ret df_clean
  else
    let* _ := parse_date_columns_obj parse_datetime
                ["Order_Date"; "date"; "Date"]%string df_clean in
    let* _ := coerce_numeric_obj parse_number
                ["Quantity"; "Price"; "Sales"]%string df_clean in
    ret df_clean.

(** ** The merge engine *)

(** One step of [ordered_union]. *)
Definition add_label (acc : list string) (c : string) : list string :=
  if decide (c ∈ acc) then acc else acc ++ [c].

(** The rows of a list of frames, counted. *)
Definition sum_len (dfs : list DataFrame) : nat := sum_list (len <$> dfs).

(** What tier 1 does to one frame: the missing columns, then the
    columns in sorted order. *)
Definition standardize (all : gset string) (df : DataFrame) : result DataFrame :=
  reindex (sorted_labels all) (add_missing all df).

(** The last character of a label, to tell the labels the preparation
    loop generates from the provenance label. *)
Fixpoint last_char (s : string) : option ascii :=
  match s with
  | EmptyString => None
  | String a s' => match s' with EmptyString => Some a | _ => last_char s' end
  end.

Definition is_digit (a : ascii) : Prop :=
  a ∈ ["0"; "1"; "2"; "3"; "4"; "5"; "6"; "7"; "8"; "9"]%char.

(** The frames of the signature groups. *)
Definition members (groups : list (list string * list DataFrame))
    : list DataFrame :=
  mjoin (snd <$> groups).

(** Every row of a tagged frame names the file in [Source_File]. *)
Definition tagged (file_name : string) (df : DataFrame) : Prop :=
  "Source_File"%string ∈ columns df ∧
  Forall (λ v, v = Str file_name) (column df "Source_File").

(** The cleaner writes to no provenance cell: a tagged frame stays
    tagged, in both modes. *)
Definition provenance_ok (file_name : string) (df : DataFrame) : Prop :=
  wf df ∧ tagged file_name df.

(** ** The batch driver *)

Section driver_outcomes.
Context {St Data : Type}.
Variable name_of : string → string.
Variable process_single_file : string → St → St * (Data + string).

(** What processing [file_path] in state [s] records. *)
Definition outcome_of (file_path : string) (s : St) : outcome Data :=
  match (process_single_file file_path s).2 with
  | inl data => Success data file_path
  | inr e => Failed e file_path
  end.

(** The session after the files of a list were processed in turn. *)
Definition state_after (file_paths : list string) (s : St) : St :=
  foldl (λ s file_path, (process_single_file file_path s).1) s file_paths.

End driver_outcomes.

(** * Example frames and files *)

(** A float of whole value. *)
Definition z (n : Z) : cell := Num (Qc_of_Z n).




(** Parsers that recognise nothing. *)
Definition no_dates (c : cell) : option Z := None.

Definition no_numbers (s : string) : option number := None.

Definition orders : DataFrame :=
  mkDF ["Order_ID"; "Product"; "Quantity"; "Price"; "Order_Date"; "Region";
        "Source_File"]%string
    [(0, [z 1; Str "Mouse"; z 1; z 10; Str "2023-01-05"; Str "North"; Str "a.csv"]);
     (1, [z 2; Str "Mouse"; z 2; NaN; Str "2023-01-06"; NaN; Str "a.csv"]);
     (2, [z 3; Str "Mouse"; NaN; z 20; Str "2023-01-07"; Str "East"; Str "a.csv"]);
     (3, [z 4; Str "Mouse"; z 4; NaN; Str "2023-01-08"; Str "East"; Str "a.csv"]);
     (4, [z 5; Str "Mouse"; z 100; z 30; Str "2023-01-09"; Str "West"; Str "a.csv"])]%nat.

Definition two_quantities : DataFrame :=
  mkDF ["Qty"; " QUANTITY "; "Item"]%string
       [(0, [z 1; z 2; Str "Mouse"]); (1, [z 3; z 4; Str "Pad"])]%nat.

Definition frame_xy : DataFrame :=
  mkDF ["X"; "Y"; "Source_File"]%string
       [(0, [z 1; z 2; Str "a.csv"]); (5, [z 3; z 4; Str "a.csv"])]%nat.

Definition frame_yz : DataFrame :=
  mkDF ["Y"; "Z"; "Source_File"]%string [(0, [z 5; z 6; Str "b.csv"])]%nat.

(** A file with a header and no row. *)
Definition header_only : DataFrame :=
  mkDF ["Y"; "W"; "Source_File"]%string [].

(** A per-file behaviour for the examples: the session counts the
    files seen, and the second file raises. *)
Definition second_file_fails (file_path : string) (s : nat)
    : nat * (nat + string) :=
  (S s, if decide (s = 1%nat) then inr "boom"%string else inl s).

(** A parser that reads a text of decimal digits as an integer, and
    no other text. *)
Definition digit_value (a : ascii) : option Z :=
  let n := nat_of_ascii a in
  if (48 <=? n)%nat && (n <=? 57)%nat then Some (Z.of_nat (n - 48)) else None.

Fixpoint digits_value (acc : Z) (s : string) : option Z :=
  match s with
  | EmptyString => Some acc
  | String a s' =>
      match digit_value a with
      | Some d => digits_value (10 * acc + d) s'
      | None => None
      end
  end.

Definition parse_digits (s : string) : option number :=
  match s with
  | EmptyString => None
  | _ => Integer <$> digits_value 0 s
  end.

(** A sales file whose prices were read as text, one of them being no
    number; the quantities are integers and no date is given. *)
Definition text_prices : DataFrame :=
  mkDF ["Order_ID"; "Product"; "Quantity"; "Price"; "Order_Date"; "Region";
        "Source_File"]%string
    [(0, [Int 1; Str "Mouse"; Int 1; Str "10"; NaN; Str "North"; Str "a.csv"]);
     (1, [Int 2; Str "Pad"; Int 2; Str "20"; NaN; Str "East"; Str "a.csv"]);
     (2, [Int 3; Str "Lamp"; Int 3; Str "n/a?"; NaN; Str "West"; Str "a.csv"])]%nat.

(** What the cleaning makes of it: the quantities stay (the bound is
    4), the products are the repeated texts ["10"], ["2020"] and
    ["n/a?n/a?n/a?"], and the last step reads prices and products as
    numbers where it can. *)
Definition text_prices_cleaned : DataFrame :=
  mkDF ["Order_ID"; "Product"; "Quantity"; "Price"; "Order_Date"; "Region";
        "Source_File"; "Sales"]%string
    [(0, [Int 1; Str "Mouse"; Int 1; Int 10; NaN; Str "North"; Str "a.csv";
          Int 10]);
     (1, [Int 2; Str "Pad"; Int 2; Int 20; NaN; Str "East"; Str "a.csv";
          Int 2020]);
     (2, [Int 3; Str "Lamp"; Int 3; NaN; NaN; Str "West"; Str "a.csv";
          NaN])]%nat.

(** * Properties *)

(** Closed, decidable goals are settled by evaluation. *)
Ltac by_compute :=
  cbv zeta;
  match goal with
  | |- ?P => apply (bool_decide_unpack P); vm_compute; exact I
  end.

(** ** Frames: reading and writing cells *)

Lemma col_index_Some cols c i :
  col_index cols c = Some i → cols !! i = Some c ∧ (i < length cols)%nat.
Proof.
  unfold col_index. intros H.
  destruct (list_find (λ x, x = c) cols) as [[j y]|] eqn:E; simplify_eq/=.
  apply list_find_Some in E as (Hj & -> & _).
  split; [done|]. by eapply lookup_lt_Some.
Qed.

Lemma col_index_None cols c : col_index cols c = None ↔ c ∉ cols.
Proof.
  unfold col_index. rewrite fmap_None, list_find_None, Forall_forall.
  split; [intros H Hc; by apply (H c)|intros H x Hx ->; done].
Qed.

Lemma col_index_elem_of cols c : c ∈ cols → is_Some (col_index cols c).
Proof.
  intros Hc. destruct (col_index cols c) eqn:E; [by eexists|].
  by apply col_index_None in E.
Qed.

Lemma lookup_set_cells cols c v r i :
  set_cells cols c v r !! i =
    name ← cols !! i; old ← r !! i;
    Some (if decide (name = c) then v else old).
Proof.
  unfold set_cells. rewrite lookup_zip_with.
  destruct (cols !! i); simpl; [|done]. by destruct (r !! i).
Qed.

Lemma length_set_cells cols c v r :
  length r = length cols → length (set_cells cols c v r) = length cols.
Proof. intros H. unfold set_cells. rewrite length_zip_with. lia. Qed.

Lemma cell_at_set_cells_eq cols c v r :
  c ∈ cols → length r = length cols →
  cell_at cols c (set_cells cols c v r) = v.
Proof.
  intros Hc Hlen. unfold cell_at.
  destruct (col_index_elem_of _ _ Hc) as [i Hi]. rewrite Hi. simpl.
  apply col_index_Some in Hi as [Hi Hlt].
  rewrite lookup_set_cells, Hi. simpl.
  destruct (lookup_lt_is_Some_2 r i) as [old ->]; [lia|]. simpl.
  by rewrite decide_True.
Qed.

Lemma cell_at_set_cells_ne cols c c' v r :
  c ≠ c' → cell_at cols c (set_cells cols c' v r) = cell_at cols c r.
Proof.
  intros Hne. unfold cell_at.
  destruct (col_index cols c) as [i|] eqn:Hi; [|done]. simpl.
  apply col_index_Some in Hi as [Hi Hlt].
  rewrite lookup_set_cells, Hi. simpl.
  destruct (r !! i); simpl; [|done]. by rewrite decide_False.
Qed.

Lemma cell_at_snoc_eq cols c v r :
  c ∉ cols → length r = length cols → cell_at (cols ++ [c]) c (r ++ [v]) = v.
Proof.
  intros Hc Hlen. unfold cell_at, col_index.
  rewrite list_find_app_r.
  2:{ apply list_find_None, Forall_forall. by intros x Hx ->. }
  simpl. rewrite decide_True by done. simpl.
  rewrite <- Hlen. by rewrite list_lookup_middle.
Qed.

Lemma cell_at_snoc_ne cols c c' v r :
  c ≠ c' → length r = length cols →
  cell_at (cols ++ [c']) c (r ++ [v]) = cell_at cols c r.
Proof.
  intros Hne Hlen. unfold cell_at, col_index.
  destruct (list_find (λ x, x = c) cols) as [[i y]|] eqn:E.
  - erewrite list_find_app_l by done. simpl.
    apply list_find_Some in E as (Hi & _ & _).
    apply lookup_lt_Some in Hi. by rewrite lookup_app_l by lia.
  - rewrite list_find_app_r by done. simpl. by rewrite decide_False.
Qed.

Lemma columns_setitem c f df :
  columns (setitem c f df) =
    if decide (c ∈ columns df) then columns df else columns df ++ [c].
Proof. unfold setitem. by case_decide. Qed.


Lemma len_setitem c f df : len (setitem c f df) = len df.
Proof. unfold setitem, len. case_decide; simpl; by rewrite length_fmap. Qed.

Lemma wf_setitem c f df : wf df → wf (setitem c f df).
Proof.
  unfold wf, setitem. intros H. case_decide; simpl.
  - rewrite Forall_fmap. eapply Forall_impl; [done|]. simpl.
    intros r Hr. by apply length_set_cells.
  - rewrite Forall_fmap. eapply Forall_impl; [done|]. simpl.
    intros r Hr. rewrite !length_app, Hr. done.
Qed.

Lemma elem_of_columns_setitem c c' f df :
  c ∈ columns (setitem c' f df) ↔ c ∈ columns df ∨ c = c'.
Proof.
  rewrite columns_setitem. destruct (decide (c' ∈ columns df)).
  - split; [by left|]. intros [?| ->]; done.
  - by rewrite elem_of_app, list_elem_of_singleton.
Qed.

(** The rows of [setitem c f df], one by one. *)
Lemma rows_setitem_lookup c f df i r :
  wf df → rows df !! i = Some r →
  ∃ r', rows (setitem c f df) !! i = Some r' ∧ r'.1 = r.1 ∧
    cell_at (columns (setitem c f df)) c r'.2 = f r.2 ∧
    ∀ c0, c0 ≠ c →
      cell_at (columns (setitem c f df)) c0 r'.2 = cell_at (columns df) c0 r.2.
Proof.
  intros Hwf Hi.
  assert (length r.2 = length (columns df)) as Hlen.
  { unfold wf in Hwf. rewrite Forall_lookup in Hwf. by apply (Hwf i). }
  unfold setitem. destruct (decide (c ∈ columns df)) as [Hc|Hc]; simpl;
    rewrite list_lookup_fmap, Hi; simpl;
    eexists; (split; [reflexivity|]); simpl; (split; [reflexivity|]); split.
  - by apply cell_at_set_cells_eq.
  - intros c0 Hc0. by apply cell_at_set_cells_ne.
  - by apply cell_at_snoc_eq.
  - intros c0 Hc0. by apply cell_at_snoc_ne.
Qed.

Lemma column_setitem_eq c f df :
  wf df → column (setitem c f df) c = (λ r, f r.2) <$> rows df.
Proof.
  intros Hwf. apply list_eq. intros i. unfold column.
  rewrite !list_lookup_fmap.
  destruct (rows df !! i) as [r|] eqn:Hi.
  - destruct (rows_setitem_lookup c f df i r Hwf Hi) as (r' & -> & _ & Hc & _).
    simpl. by rewrite Hc.
  - apply lookup_ge_None in Hi. fold (len df) in Hi.
    rewrite <- (len_setitem c f) in Hi. unfold len in Hi.
    apply lookup_ge_None in Hi. by rewrite Hi.
Qed.

Lemma column_setitem_ne c c0 f df :
  wf df → c0 ≠ c → column (setitem c f df) c0 = column df c0.
Proof.
  intros Hwf Hne. apply list_eq. intros i. unfold column.
  rewrite !list_lookup_fmap.
  destruct (rows df !! i) as [r|] eqn:Hi.
  - destruct (rows_setitem_lookup c f df i r Hwf Hi) as (r' & -> & _ & _ & Hc).
    simpl. by rewrite Hc.
  - apply lookup_ge_None in Hi. fold (len df) in Hi.
    rewrite <- (len_setitem c f) in Hi. unfold len in Hi.
    apply lookup_ge_None in Hi. by rewrite Hi.
Qed.

Lemma column_map_column_eq c g df :
  wf df → column (map_column c g df) c = g <$> column df c.
Proof.
  intros Hwf. unfold map_column. rewrite column_setitem_eq by done.
  unfold column. by rewrite <- list_fmap_compose.
Qed.


Lemma count_label_setitem c c' f df :
  c' ∈ columns df → count_label c (setitem c' f df) = count_label c df.
Proof.
  intros Hc. unfold count_label. by rewrite columns_setitem, decide_True.
Qed.

Lemma count_label_elem_of c df : count_label c df = 1%nat → c ∈ columns df.
Proof.
  unfold count_label. intros H.
  destruct (filter (λ x, x = c) (columns df)) as [|x l] eqn:E; [done|].
  assert (x ∈ filter (λ x, x = c) (columns df)) as Hx by (rewrite E; left).
  apply list_elem_of_filter in Hx as [-> ?]. done.
Qed.

Lemma count_label_unique cols c i :
  length (filter (λ x, x = c) cols) = 1%nat → cols !! i = Some c →
  col_index cols c = Some i.
Proof.
  revert i. induction cols as [|x cols IH]; intros i Hcnt Hi; [done|].
  unfold col_index in *. rewrite filter_cons in Hcnt.
  destruct i as [|i]; simplify_eq/=.
  - by rewrite decide_True.
  - case_decide as Hx.
    + subst x. simpl in Hcnt.
      apply list_elem_of_lookup_2 in Hi.
      assert (c ∈ filter (λ x, x = c) cols) as Hin
        by (by apply list_elem_of_filter).
      destruct (filter (λ x, x = c) cols); [by apply elem_of_nil in Hin|done].
    + specialize (IH i Hcnt Hi).
      destruct (list_find (λ x, x = c) cols) as [[j y]|]; by simplify_eq/=.
Qed.

(** Rewriting the cells of a column with themselves leaves a row as it
    is, when one column only carries the label. *)
Lemma set_cells_id cols c r :
  length (filter (λ x, x = c) cols) = 1%nat → length r = length cols →
  set_cells cols c (cell_at cols c r) r = r.
Proof.
  intros Hcnt Hlen. apply list_eq. intros i. rewrite lookup_set_cells.
  destruct (r !! i) as [old|] eqn:Ho; simpl.
  - destruct (lookup_lt_is_Some_2 cols i) as [name Hn].
    { rewrite <- Hlen. by eapply lookup_lt_Some. }
    rewrite Hn. simpl. case_decide as Hc; [|done]. subst name.
    unfold cell_at. rewrite (count_label_unique _ _ _ Hcnt Hn). simpl.
    by rewrite Ho.
  - by destruct (cols !! i).
Qed.

Lemma map_column_id c g df :
  wf df → count_label c df = 1%nat →
  Forall (λ x, g x = x) (column df c) → map_column c g df = df.
Proof.
  intros Hwf Hcnt Hg. pose proof (count_label_elem_of _ _ Hcnt) as Hc.
  unfold map_column, setitem. rewrite decide_True by done.
  destruct df as [cols rs]. simpl in *. f_equal.
  unfold column in Hg. simpl in Hg. rewrite Forall_fmap in Hg.
  unfold wf in Hwf. simpl in Hwf. unfold count_label in Hcnt. simpl in Hcnt.
  rewrite <- (list_fmap_id rs) at 2. apply Forall_fmap_ext_1.
  rewrite Forall_forall in *. intros [l r] Hr.
  specialize (Hg _ Hr). specialize (Hwf _ Hr). simpl in *.
  rewrite Hg. f_equal. by apply set_cells_id.
Qed.

(** ** Exceptions *)

Lemma traverse_Ok_inv {A B} (f : A → result B) l ys :
  traverse f l = Ok ys → Forall2 (λ x y, f x = Ok y) l ys.
Proof.
  revert ys. induction l as [|x l IH]; intros ys H; cbn in H.
  - simplify_eq. constructor.
  - destruct (f x) as [y|] eqn:Hx; cbn in H; [|done].
    destruct (traverse f l) as [ys'|]; cbn in H; [|done].
    simplify_eq. constructor; auto.
Qed.

Lemma traverse_Ok_fmap {A B} (f : A → result B) (g : A → B) l :
  Forall (λ x, f x = Ok (g x)) l → traverse f l = Ok (g <$> l).
Proof.
  induction 1 as [|x l Hx _ IH]; [done|]. cbn. rewrite Hx. cbn.
  rewrite IH. done.
Qed.

(** ** Numeric columns *)

Lemma as_numeric_Ok col :
  Forall (λ c, is_numeric c = true) col →
  as_numeric col = Ok (float_of <$> col).
Proof.
  induction 1 as [|c col Hc _ IH]; [done|].
  cbn. rewrite IH. by destruct c.
Qed.





Lemma sorted_numbers_Sorted col : Sorted Qcle (sorted_numbers col).
Proof. apply (Sorted_merge_sort Qcle). Qed.

Lemma sorted_numbers_Permutation col : sorted_numbers col ≡ₚ numbers col.
Proof. apply (merge_sort_Permutation Qcle). Qed.

Lemma length_sorted_numbers col :
  length (sorted_numbers col) = length (numbers col).
Proof. by rewrite sorted_numbers_Permutation. Qed.











Lemma clamp_with_idemp bound col :
  clamp_with bound (clamp_with bound col) = clamp_with bound col.
Proof.
  unfold clamp_with. rewrite <- list_fmap_compose.
  apply list_fmap_ext. intros i x _. simpl.
  destruct (gt x bound) eqn:E; [|by rewrite E].
  destruct bound as [b|]; [|done]. simpl.
  rewrite bool_decide_eq_false_2; [done|]. apply (irreflexivity Qclt).
Qed.





Lemma clamp_quantity_numeric df :
  count_label "Quantity" df = 1%nat →
  Forall (λ c, is_numeric c = true) (column df "Quantity") →
  clamp_quantity df =
    Ok (map_column "Quantity"
          (set_above (dtype_of (column df "Quantity"))
             (upper_bound (float_of <$> column df "Quantity"))) df).
Proof.
  intros Hcnt Hnum. unfold clamp_quantity.
  rewrite decide_True by done. by rewrite (as_numeric_Ok _ Hnum).
Qed.





(** The quantile is the linear interpolation between two neighbours of
    the sorted non-missing values. *)
Lemma quantile_linear_interpolation p col m :
  length (numbers col) = S m →
  ∃ s, Sorted Qcle s ∧ s ≡ₚ numbers col ∧
    let h := virtual_index p m in
    let lo := Z.to_nat (Qfloor h) in
    quantile p col =
      Some (nth lo s 0
            + (h - Qc_of_Z (Qfloor h))
              * (nth (Nat.min (lo + 1) m) s 0 - nth lo s 0)).
Proof.
  intros Hlen. exists (sorted_numbers col).
  split; [apply sorted_numbers_Sorted|].
  split; [apply sorted_numbers_Permutation|].
  unfold quantile. fold (sorted_numbers col).
  by rewrite length_sorted_numbers, Hlen.
Qed.



(** ** Re-applying the outlier step *)


Lemma wf_map_column c g df : wf df → wf (map_column c g df).
Proof. apply wf_setitem. Qed.







(** ** The cleaning pipeline *)

Lemma column_labelled df c : column df c = snd <$> labelled df c.
Proof. unfold column, labelled. by rewrite <- list_fmap_compose. Qed.

Lemma index_labelled df c : index df = fst <$> labelled df c.
Proof. unfold index, labelled. by rewrite <- list_fmap_compose. Qed.

Lemma labelled_setitem_eq c f df :
  wf df →
  labelled (setitem c f df) c = (λ r : nat * list cell, (r.1, f r.2)) <$> rows df.
Proof.
  intros Hwf. apply list_eq. intros i. unfold labelled.
  rewrite !list_lookup_fmap.
  destruct (rows df !! i) as [r|] eqn:Hi.
  - destruct (rows_setitem_lookup c f df i r Hwf Hi) as (r' & -> & Hl & Hc & _).
    simpl. by rewrite Hc, Hl.
  - apply lookup_ge_None in Hi. fold (len df) in Hi.
    rewrite <- (len_setitem c f) in Hi. unfold len in Hi.
    apply lookup_ge_None in Hi. by rewrite Hi.
Qed.

Lemma labelled_setitem_ne c c0 f df :
  wf df → c0 ≠ c → labelled (setitem c f df) c0 = labelled df c0.
Proof.
  intros Hwf Hne. apply list_eq. intros i. unfold labelled.
  rewrite !list_lookup_fmap.
  destruct (rows df !! i) as [r|] eqn:Hi.
  - destruct (rows_setitem_lookup c f df i r Hwf Hi) as (r' & -> & Hl & _ & Hc).
    simpl. by rewrite Hc, Hl.
  - apply lookup_ge_None in Hi. fold (len df) in Hi.
    rewrite <- (len_setitem c f) in Hi. unfold len in Hi.
    apply lookup_ge_None in Hi. by rewrite Hi.
Qed.

Lemma labelled_map_column_eq c g df :
  wf df →
  labelled (map_column c g df) c
  = (λ iv : nat * cell, (iv.1, g iv.2)) <$> labelled df c.
Proof.
  intros Hwf. unfold map_column. rewrite labelled_setitem_eq by done.
  unfold labelled. by rewrite <- list_fmap_compose.
Qed.

Lemma labelled_map_column_ne c c0 g df :
  wf df → c0 ≠ c → labelled (map_column c g df) c0 = labelled df c0.
Proof. apply labelled_setitem_ne. Qed.

Lemma columns_map_column c g df :
  c ∈ columns df → columns (map_column c g df) = columns df.
Proof. intros Hc. unfold map_column. by rewrite columns_setitem, decide_True. Qed.

Lemma elem_of_dedup_rows seen rs r : r ∈ dedup_rows seen rs → r ∈ rs.
Proof.
  revert seen. induction rs as [|r0 rs IH]; intros seen; simpl; [done|].
  case_decide.
  - intros Hr%IH. by right.
  - intros [->|Hr%IH]%elem_of_cons; [by left|by right].
Qed.

Lemma wf_drop_duplicates df : wf df → wf (drop_duplicates df).
Proof.
  unfold wf, drop_duplicates. simpl. rewrite !Forall_forall.
  intros H r Hr%elem_of_dedup_rows. by apply H.
Qed.

Lemma labelled_drop_duplicates df c iv :
  iv ∈ labelled (drop_duplicates df) c → iv ∈ labelled df c.
Proof.
  unfold labelled, drop_duplicates. simpl. rewrite !list_elem_of_fmap.
  intros (r & -> & Hr%elem_of_dedup_rows). by exists r.
Qed.

Lemma column_drop_duplicates df c v :
  v ∈ column (drop_duplicates df) c → v ∈ column df c.
Proof.
  rewrite !column_labelled, !list_elem_of_fmap.
  intros (iv & -> & Hiv%labelled_drop_duplicates). by exists iv.
Qed.

Lemma fill_price_eq df :
  wf df → count_label "Price" df = 1%nat →
  Forall (λ c, is_numeric c = true) (column df "Price") →
  fill_price df =
    Ok (map_column "Price"
          (fill (of_float (median (float_of <$> column df "Price")))) df).
Proof.
  intros Hwf Hcnt Hnum. unfold fill_price. rewrite decide_True by done.
  case_decide as Hmiss.
  - by rewrite (as_numeric_Ok _ Hnum).
  - f_equal. symmetry. apply map_column_id; [done..|].
    assert (filter (λ c, isnull c = true) (column df "Price") = []) as Hnil.
    { destruct (filter _ _); [done|simpl in Hmiss; lia]. }
    rewrite Forall_forall. intros x Hx. unfold fill.
    destruct (isnull x) eqn:E; [|done].
    assert (x ∈ filter (λ c, isnull c = true) (column df "Price")) as Hin
      by (by apply list_elem_of_filter).
    rewrite Hnil in Hin. by apply elem_of_nil in Hin.
Qed.

Lemma fill_region_eq df :
  wf df → count_label "Region" df = 1%nat →
  fill_region df = Ok (map_column "Region" (fill (Str "Unknown")) df).
Proof.
  intros Hwf Hcnt. unfold fill_region. rewrite decide_True by done.
  case_decide as Hmiss; [done|].
  f_equal. symmetry. apply map_column_id; [done..|].
  assert (filter (λ c, isnull c = true) (column df "Region") = []) as Hnil.
  { destruct (filter _ _); [done|simpl in Hmiss; lia]. }
  rewrite Forall_forall. intros x Hx. unfold fill.
  destruct (isnull x) eqn:E; [|done].
  assert (x ∈ filter (λ c, isnull c = true) (column df "Region")) as Hin
    by (by apply list_elem_of_filter).
  rewrite Hnil in Hin. by apply elem_of_nil in Hin.
Qed.

Lemma numeric_frame_map_column cols c g df :
  numeric_frame cols df → c ∈ cols →
  (c = "Price"%string ∨ c = "Quantity"%string →
   ∀ x, is_numeric x = true → is_numeric (g x) = true) →
  numeric_frame cols (map_column c g df).
Proof.
  intros (Hwf & Hcols & HP & HQ) Hc Hg. subst cols.
  split; [by apply wf_map_column|].
  split; [by apply columns_map_column|].
  split.
  - destruct (decide (c = "Price"%string)) as [->|Hne].
    + rewrite column_map_column_eq, Forall_fmap by done.
      eapply Forall_impl; [exact HP|]. intros x Hx. apply Hg; auto.
    + unfold map_column. rewrite column_setitem_ne by done. done.
  - destruct (decide (c = "Quantity"%string)) as [->|Hne].
    + rewrite column_map_column_eq, Forall_fmap by done.
      eapply Forall_impl; [exact HQ|]. intros x Hx. apply Hg; auto.
    + unfold map_column. rewrite column_setitem_ne by done. done.
Qed.

Lemma numeric_frame_drop_duplicates cols df :
  numeric_frame cols df → numeric_frame cols (drop_duplicates df).
Proof.
  intros (Hwf & Hcols & HP & HQ).
  split; [by apply wf_drop_duplicates|]. split; [done|].
  rewrite !Forall_forall in *. split; intros x Hx%column_drop_duplicates; auto.
Qed.

Section pipeline.
Variable parse_datetime : cell → option Z.
Variable parse_number : string → option number.

Lemma numeric_frame_parse_dates cols df :
  numeric_frame cols df →
  numeric_frame cols (parse_dates parse_datetime "Order_Date" df).
Proof.
  intros H. unfold parse_dates. case_decide as Hcnt; [|done].
  apply numeric_frame_map_column; [done| |by intros [?|?]].
  destruct H as (_ & <- & _). by apply count_label_elem_of.
Qed.

Lemma labelled_parse_dates df c :
  wf df → c ≠ "Order_Date"%string →
  labelled (parse_dates parse_datetime "Order_Date" df) c = labelled df c.
Proof.
  intros Hwf Hc. unfold parse_dates. case_decide; [|done].
  by apply labelled_map_column_ne.
Qed.

Lemma to_numeric_number x :
  is_numeric x = true → to_numeric parse_number x = x.
Proof. by destruct x. Qed.

(** On a frame whose listed columns are numeric and held once, the
    final coercion changes nothing. *)
Lemma coerce_numeric_id cs df :
  wf df →
  Forall (λ c, c ∈ columns df → count_label c df = 1%nat ∧
               Forall (λ x, is_numeric x = true) (column df c)) cs →
  coerce_numeric parse_number cs df = Ok df.
Proof.
  intros Hwf. induction 1 as [|c cs Hc _ IH]; [done|]. simpl.
  case_decide as Hin; [|done].
  destruct (Hc Hin) as [Hcnt Hnum]. rewrite decide_True by done.
  rewrite map_column_id; [done..|].
  eapply Forall_impl; [exact Hnum|]. apply to_numeric_number.
Qed.

Lemma is_numeric_of_float x : is_numeric (of_float x) = true.
Proof. by destruct x. Qed.

Lemma is_numeric_set_above dt bound c :
  is_numeric c = true → is_numeric (set_above dt bound c) = true.
Proof.
  intros Hc. unfold set_above.
  destruct dt, bound as [b|], c; try done; simpl;
    try (destruct (as_int64 b); by repeat case_bool_decide);
    by repeat case_bool_decide.
Qed.

Lemma forallb_Forall {A} (f : A → bool) l :
  forallb f l = true ↔ Forall (λ x, f x = true) l.
Proof.
  induction l as [|x l IH]; simpl; [by split|].
  rewrite andb_true_iff, Forall_cons, IH. done.
Qed.

(** The type of a column of numbers, and of an int64 column the cells. *)
Lemma dtype_of_numeric col :
  Forall (λ c, is_numeric c = true) col →
  dtype_of col = int64 ∨ dtype_of col = float64.
Proof.
  intros H. unfold dtype_of. destruct (forallb is_int col); [by left|].
  right. by rewrite (proj2 (forallb_Forall _ _) H).
Qed.


(** On numeric columns the product of a row does not raise, and is a
    number or missing. *)
Lemma mul_value_numeric dq dp q p :
  (dq = int64 ∨ dq = float64) → (dp = int64 ∨ dp = float64) →
  ∃ v, mul_value dq dp q p = Ok v ∧ is_numeric v = true.
Proof.
  intros [-> | ->] [-> | ->]; unfold mul_value;
    repeat (case_decide; try naive_solver);
    eexists; (split; [reflexivity|]);
    try (by destruct q, p);
    by destruct (float_of q), (float_of p).
Qed.

Lemma row_product_numeric df r :
  Forall (λ c, is_numeric c = true) (column df "Quantity") →
  Forall (λ c, is_numeric c = true) (column df "Price") →
  row_product df r = Ok (sales_of df r) ∧ is_numeric (sales_of df r) = true.
Proof.
  intros HQ HP. unfold sales_of, row_product.
  destruct (mul_value_numeric (dtype_of (column df "Quantity"))
              (dtype_of (column df "Price"))
              (cell_at (columns df) "Quantity" r)
              (cell_at (columns df) "Price" r)) as (v & -> & Hv);
    [by apply dtype_of_numeric..|done].
Qed.

Lemma derive_sales_numeric df :
  Forall (λ c, is_numeric c = true) (column df "Quantity") →
  Forall (λ c, is_numeric c = true) (column df "Price") →
  derive_sales df = Ok (setitem "Sales" (sales_of df) df).
Proof.
  intros HQ HP. unfold derive_sales.
  rewrite (traverse_Ok_fmap _ (sales_of df)); [done|].
  apply Forall_forall. intros r _. by apply row_product_numeric.
Qed.

Lemma full_mode_stages df :
  full_mode_ready df →
  numeric_frame (columns df) (after_price df) ∧
  numeric_frame (columns df) (after_region df) ∧
  numeric_frame (columns df) (after_dates parse_datetime df) ∧
  numeric_frame (columns df) (after_clamp parse_datetime df).
Proof.
  intros (Hwf & HcP & HcR & HcQ & HcS & HP & HQ).
  assert (numeric_frame (columns df) (after_price df)) as H1.
  { apply numeric_frame_map_column; [done|by apply count_label_elem_of|].
    intros _ x Hx. unfold fill. destruct (isnull x); [|done].
    apply is_numeric_of_float. }
  assert (numeric_frame (columns df) (after_region df)) as H2.
  { apply numeric_frame_map_column; [done|by apply count_label_elem_of|].
    by intros [?|?]. }
  assert (numeric_frame (columns df) (after_dates parse_datetime df)) as H4
    by (by apply numeric_frame_parse_dates, numeric_frame_drop_duplicates).
  split; [done|]. split; [done|]. split; [done|].
  apply numeric_frame_map_column; [done|by apply count_label_elem_of|].
  intros _ x Hx. by apply is_numeric_set_above.
Qed.

Lemma count_label_columns c df df' :
  columns df' = columns df → count_label c df' = count_label c df.
Proof. unfold count_label. by intros ->. Qed.

Lemma count_label_le_1 c df :
  c ∈ columns df → (count_label c df ≤ 1)%nat → count_label c df = 1%nat.
Proof.
  intros Hc Hle. unfold count_label in *.
  assert (c ∈ filter (λ x, x = c) (columns df)) as Hin
    by (by apply list_elem_of_filter).
  destruct (filter (λ x, x = c) (columns df)); [by apply elem_of_nil in Hin|].
  simpl in *. lia.
Qed.

Lemma count_label_not_elem_of c df : c ∉ columns df → count_label c df = 0%nat.
Proof.
  intros Hc. unfold count_label.
  destruct (filter (λ x, x = c) (columns df)) as [|x l] eqn:E; [done|].
  assert (x ∈ filter (λ x, x = c) (columns df)) as Hx by (rewrite E; left).
  apply list_elem_of_filter in Hx as [-> ?]. done.
Qed.

Lemma count_label_setitem_new c c' f df :
  c' ∉ columns df →
  count_label c (setitem c' f df)
  = (count_label c df + if decide (c' = c) then 1 else 0)%nat.
Proof.
  intros Hc. unfold count_label. rewrite columns_setitem, decide_False by done.
  rewrite filter_app, length_app. f_equal.
  rewrite filter_cons, filter_nil. by repeat case_decide.
Qed.

Lemma basic_data_cleaning_full df :
  has_sales_data df = true → full_mode_ready df →
  basic_data_cleaning parse_datetime parse_number df
  = Ok (full_mode_result parse_datetime df).
Proof.
  intros Hsales Hready.
  destruct (full_mode_stages df Hready) as (H1 & H2 & H4 & H5).
  destruct Hready as (Hwf & HcP & HcR & HcQ & HcS & HP & HQ).
  unfold basic_data_cleaning. rewrite Hsales.
  rewrite fill_price_eq by done. cbn [mbind result_bind].
  fold (after_price df).
  rewrite fill_region_eq;
    [|apply H1|by rewrite (count_label_columns _ df) by apply H1].
  cbn [mbind result_bind]. fold (after_region df). fold (after_dates parse_datetime df).
  rewrite clamp_quantity_numeric;
    [|by rewrite (count_label_columns _ df) by apply H4|apply H4].
  cbn [mbind result_bind]. fold (after_clamp parse_datetime df).
  destruct H5 as (Hwf5 & Hcols5 & HP5 & HQ5).
  rewrite derive_sales_numeric by done.
  cbn [mbind result_bind]. fold (full_mode_result parse_datetime df).
  assert (wf (full_mode_result parse_datetime df)) as Hwf6 by (by apply wf_setitem).
  assert (∀ c, c ≠ "Sales"%string →
               count_label c (full_mode_result parse_datetime df) = count_label c df) as Hcnt6.
  { intros c Hc. unfold full_mode_result.
    destruct (decide ("Sales"%string ∈ columns (after_clamp parse_datetime df))).
    - rewrite count_label_setitem by done. by apply count_label_columns.
    - rewrite count_label_setitem_new, decide_False by done.
      rewrite Nat.add_0_r. by apply count_label_columns. }
  apply coerce_numeric_id; [done|]. repeat constructor.
  - by rewrite Hcnt6.
  - unfold full_mode_result. by rewrite column_setitem_ne.
  - by rewrite Hcnt6.
  - unfold full_mode_result. by rewrite column_setitem_ne.
  - unfold full_mode_result.
    destruct (decide ("Sales"%string ∈ columns (after_clamp parse_datetime df))) as [Hin|Hin].
    + rewrite count_label_setitem by done.
      rewrite (count_label_columns _ df) by done.
      apply count_label_le_1; [by rewrite <- Hcols5|done].
    + rewrite count_label_setitem_new, decide_True by done.
      by rewrite count_label_not_elem_of.
  - unfold full_mode_result. rewrite column_setitem_eq, Forall_fmap by done.
    apply Forall_true. intros r. by apply row_product_numeric.
Qed.

(** Every price of the cleaned frame is the filled price of the input
    row with the same index label. *)
Lemma full_mode_price df iv :
  full_mode_ready df →
  iv ∈ labelled (full_mode_result parse_datetime df) "Price" →
  ∃ v0, (iv.1, v0) ∈ labelled df "Price" ∧
    iv.2 = fill (of_float (median (float_of <$> column df "Price"))) v0.
Proof.
  intros Hready.
  destruct (full_mode_stages df Hready) as (H1 & H2 & H4 & H5).
  destruct Hready as (Hwf & _).
  unfold full_mode_result.
  rewrite labelled_setitem_ne; [|apply H5|done].
  unfold after_clamp. rewrite labelled_map_column_ne; [|apply H4|done].
  unfold after_dates.
  rewrite labelled_parse_dates; [|apply wf_drop_duplicates, H2|done].
  intros Hiv%labelled_drop_duplicates. revert Hiv.
  unfold after_region. rewrite labelled_map_column_ne; [|apply H1|done].
  unfold after_price. rewrite labelled_map_column_eq by done.
  intros ([i v0] & -> & Hv0)%list_elem_of_fmap. by exists v0.
Qed.

End pipeline.

Lemma length_dedup_rows seen rs : (length (dedup_rows seen rs) ≤ length rs)%nat.
Proof.
  revert seen. induction rs as [|r rs IH]; intros seen; simpl; [done|].
  case_decide; simpl; [|specialize (IH (r.2 :: seen)); lia].
  specialize (IH seen). lia.
Qed.

Lemma dedup_rows_same_length seen rs :
  length (dedup_rows seen rs) = length rs → dedup_rows seen rs = rs.
Proof.
  revert seen. induction rs as [|r rs IH]; intros seen; simpl; [done|].
  case_decide; simpl.
  - pose proof (length_dedup_rows seen rs). lia.
  - intros [= Hlen]. f_equal. by apply IH.
Qed.

Lemma len_map_column c g df : len (map_column c g df) = len df.
Proof. apply len_setitem. Qed.

Lemma len_parse_dates pd c df : len (parse_dates pd c df) = len df.
Proof. unfold parse_dates. case_decide; [apply len_map_column|done]. Qed.

Lemma median_Some col x :
  Some x ∈ col →
  ∃ med s, median col = Some med ∧ Sorted Qcle s ∧ s ≡ₚ numbers col ∧
    med = if Nat.even (length s)
          then (nth (length s / 2 - 1) s 0 + nth (length s / 2) s 0) / Q2Qc 2
          else nth (length s / 2) s 0.
Proof.
  intros Hx. unfold median. fold (sorted_numbers col).
  assert (x ∈ numbers col) as Hin.
  { unfold numbers. apply list_elem_of_omap. by exists (Some x). }
  rewrite <- sorted_numbers_Permutation in Hin.
  case_decide as Hn.
  { destruct (sorted_numbers col); [by apply elem_of_nil in Hin|done]. }
  destruct (Nat.even _) eqn:E; eexists _, (sorted_numbers col);
    (split; [reflexivity|]);
    (split; [apply sorted_numbers_Sorted|]);
    (split; [apply sorted_numbers_Permutation|]); by rewrite E.
Qed.






Lemma orders_ready : full_mode_ready orders.
Proof. unfold full_mode_ready. by_compute. Defined.


Lemma labelled_functional (l : list (nat * cell)) i a b :
  NoDup (fst <$> l) → (i, a) ∈ l → (i, b) ∈ l → a = b.
Proof.
  induction l as [|[j c] l IH]; intros Hnd Ha Hb; [by apply elem_of_nil in Ha|].
  rewrite fmap_cons in Hnd. apply NoDup_cons in Hnd as [Hj Hnd].
  apply elem_of_cons in Ha as [Ha|Ha], Hb as [Hb|Hb]; simplify_eq; auto.
  - exfalso. apply Hj. apply list_elem_of_fmap. by exists (j, b).
  - exfalso. apply Hj. apply list_elem_of_fmap. by exists (j, a).
Qed.

Lemma column_parse_dates pd df c :
  wf df → c ≠ "Order_Date"%string →
  column (parse_dates pd "Order_Date" df) c = column df c.
Proof. intros. by rewrite !column_labelled, labelled_parse_dates. Qed.

Lemma drop_duplicates_same_len df :
  len (drop_duplicates df) = len df → drop_duplicates df = df.
Proof.
  unfold len, drop_duplicates. destruct df as [cols rs]. simpl.
  intros H. f_equal. by apply dedup_rows_same_length.
Qed.

(** When no row is dropped as a duplicate, the cleaned prices are the
    filled prices, in the order of the input. *)
Lemma full_mode_price_column pd df :
  full_mode_ready df →
  len (full_mode_result pd df) = len df →
  column (full_mode_result pd df) "Price"
  = fill (of_float (median (float_of <$> column df "Price")))
      <$> column df "Price".
Proof.
  intros Hready.
  destruct (full_mode_stages pd df Hready) as (H1 & H2 & H4 & H5).
  destruct Hready as (Hwf & _).
  unfold full_mode_result. rewrite len_setitem.
  rewrite column_setitem_ne; [|apply H5|done].
  unfold after_clamp. rewrite len_map_column.
  unfold map_column at 1. rewrite column_setitem_ne; [|apply H4|done].
  unfold after_dates. rewrite len_parse_dates.
  rewrite column_parse_dates; [|apply wf_drop_duplicates, H2|done].
  assert (len (after_region df) = len df) as <-.
  { unfold after_region, after_price. by rewrite !len_map_column. }
  intros ->%drop_duplicates_same_len.
  unfold after_region, map_column at 1.
  rewrite column_setitem_ne; [|apply H1|done].
  unfold after_price. by rewrite column_map_column_eq.
Qed.

(** C3, as stated, fails: a text is not a missing entry, so the column
    of prices ["10"], ["20"], ["n/a?"] has nothing to fill; the last
    step of the cleaning reads the texts as numbers and leaves the third
    price missing. *)
Lemma text_price_is_not_filled :
  ¬ (∀ (parse_datetime : cell → option Z)
       (parse_number : string → option number) (df df' : DataFrame),
       has_sales_data df = true → wf df → NoDup (columns df) →
       (∃ c, c ∈ column df "Price" ∧ isnull c = false) →
       basic_data_cleaning parse_datetime parse_number df = Ok df' →
       Forall (λ c, isnull c = false) (column df' "Price")).
Proof.
  intros H.
  assert (basic_data_cleaning no_dates parse_digits text_prices
          = Ok text_prices_cleaned) as Hrun by by_compute.
  specialize (H no_dates parse_digits text_prices text_prices_cleaned).
  assert (¬ Forall (λ c, isnull c = false)
              (column text_prices_cleaned "Price")) as Hne by by_compute.
  apply Hne, H; try exact Hrun; try by_compute.
  exists (Str "10"). split; [by_compute|reflexivity].
Qed.

(** C3, amended.  Full-mode cleaning of a frame whose [Price] column
    holds numbers and missing cells only, and at least one number,
    returns a frame whose [Price] column has no missing entry; an entry
    that was missing holds the median of the prices that were not, and
    the others keep their value.  The fill step turns the column
    [10, -, 20, -, 30] into [10, 20, 20, 20, 30], which is also the
    cleaned column when no row is dropped as a duplicate. *)
Theorem missing_price_is_filled_with_median
    (parse_datetime : cell → option Z) (parse_number : string → option number)
    (df : DataFrame) (c0 : cell) :
  has_sales_data df = true →
  full_mode_ready df →
  NoDup (index df) →
  c0 ∈ column df "Price" → isnull c0 = false →
  ∃ df' med s,
    basic_data_cleaning parse_datetime parse_number df = Ok df' ∧
    (Sorted Qcle s ∧ s ≡ₚ numbers (float_of <$> column df "Price") ∧
     med = if Nat.even (length s)
           then (nth (length s / 2 - 1) s 0 + nth (length s / 2) s 0) / Q2Qc 2
           else nth (length s / 2) s 0) ∧
    Forall (λ c, isnull c = false) (column df' "Price") ∧
    (∀ i v, (i, NaN) ∈ labelled df "Price" →
            (i, v) ∈ labelled df' "Price" → v = Num med) ∧
    (∀ i c v, (i, c) ∈ labelled df "Price" → isnull c = false →
              (i, v) ∈ labelled df' "Price" → v = c) ∧
    (column df "Price" = [z 10; NaN; z 20; NaN; z 30] →
     (∃ df1, fill_price df = Ok df1 ∧
             column df1 "Price" = [z 10; z 20; z 20; z 20; z 30]) ∧
     (len df' = len df →
      column df' "Price" = [z 10; z 20; z 20; z 20; z 30])).
Proof.
  intros Hsales Hready Hnd Hc0 Hnull.
  assert (∃ x0, float_of c0 = Some x0) as [x0 Hx0].
  { destruct Hready as (_ & _ & _ & _ & _ & HP & _).
    pose proof (proj1 (Forall_forall _ _) HP c0 Hc0) as Hn.
    destruct c0; try done; by eexists. }
  destruct (median_Some (float_of <$> column df "Price") x0)
    as (med & s & Hmed & Hs & Hperm & Hmid).
  { apply list_elem_of_fmap. by exists c0. }
  exists (full_mode_result parse_datetime df), med, s.
  split; [by apply basic_data_cleaning_full|].
  split; [done|].
  pose proof (λ iv, full_mode_price parse_datetime df iv Hready) as Hprice.
  rewrite Hmed in Hprice. simpl in Hprice.
  rewrite (index_labelled df "Price") in Hnd.
  split; [|split; [|split]].
  - rewrite Forall_forall. intros v. rewrite column_labelled.
    intros ([i v'] & -> & Hiv)%list_elem_of_fmap.
    destruct (Hprice _ Hiv) as (v0 & _ & E). simpl in *. subst v'.
    by destruct v0.
  - intros i v Hnan Hv. destruct (Hprice _ Hv) as (v0 & Hv0 & E).
    simpl in *. subst v.
    by rewrite (labelled_functional _ _ _ _ Hnd Hv0 Hnan).
  - intros i c v Hc Hcn Hv. destruct (Hprice _ Hv) as (v0 & Hv0 & E).
    simpl in *. subst v.
    rewrite (labelled_functional _ _ _ _ Hnd Hv0 Hc).
    unfold fill. by rewrite Hcn.
  - intros Hcol. pose proof Hready as (Hwf & HcP & _ & _ & _ & HP & _). split.
    + eexists. split; [by apply fill_price_eq|].
      rewrite column_map_column_eq, Hcol by done. by_compute.
    + intros Hlen. rewrite full_mode_price_column; [|done..].
      rewrite Hcol. by_compute.
Qed.

Lemma missing_price_is_filled_with_median_witness :
  ∃ df', basic_data_cleaning no_dates no_numbers orders = Ok df' ∧
         column df' "Price" = [z 10; z 20; z 20; z 20; z 30].
Proof.
  destruct (missing_price_is_filled_with_median no_dates no_numbers orders
              (z 10))
    as (df' & med & s & Hrun & _ & _ & _ & _ & Hcol).
  - reflexivity.
  - exact orders_ready.
  - by_compute.
  - by_compute.
  - reflexivity.
  - exists df'. split; [exact Hrun|].
    apply Hcol; [reflexivity|].
    assert (basic_data_cleaning no_dates no_numbers orders
            = Ok (full_mode_result no_dates orders)) as E by by_compute.
    rewrite E in Hrun. injection Hrun as <-. reflexivity.
Defined.

(** ** The schema mapper *)

Lemma build_new_columns_lookup cols c :
  c ∈ cols → build_new_columns cols !! c = Some (new_label c).
Proof.
  unfold build_new_columns.
  assert (∀ m : gmap string string,
    foldl (λ new_columns col, <[col := new_label col]> new_columns) m cols !! c
    = if decide (c ∈ cols) then Some (new_label c) else m !! c) as H.
  { induction cols as [|x cols IH]; intros m.
    - destruct (decide (c ∈ [])) as [Hin|_]; [by apply elem_of_nil in Hin|done].
    - cbn [foldl]. rewrite IH.
      destruct (decide (c ∈ cols)) as [Hin|Hin];
        destruct (decide (c ∈ x :: cols)) as [Hin'|Hin']; try done.
      + exfalso. apply Hin'. by right.
      + apply elem_of_cons in Hin' as [->|?]; [|done].
        by rewrite lookup_insert_eq.
      + rewrite lookup_insert_ne; [done|]. intros ->. apply Hin'. left. }
  intros Hc. by rewrite H, decide_True.
Qed.

Lemma columns_rename df :
  columns (rename (build_new_columns (columns df)) df)
  = new_label <$> columns df.
Proof.
  unfold rename. simpl. apply Forall_fmap_ext_1, Forall_forall.
  intros c Hc. by rewrite build_new_columns_lookup.
Qed.

Lemma wf_rename m df : wf df → wf (rename m df).
Proof. unfold wf, rename. simpl. by rewrite length_fmap. Qed.

Lemma mapping_avoids_provenance k v :
  column_mapping !! k = Some v → v ≠ "Source_File"%string.
Proof.
  assert (map_Forall (λ _ v, v ≠ "Source_File"%string) column_mapping) as H
    by by_compute.
  apply H.
Qed.

Lemma filter_label_pos (x : string) l :
  x ∈ l → (1 ≤ length (filter (λ y, y = x) l))%nat.
Proof.
  intros Hx.
  assert (x ∈ filter (λ y, y = x) l) as Hin by (by apply list_elem_of_filter).
  destruct (filter (λ y, y = x) l); [by apply elem_of_nil in Hin|simpl; lia].
Qed.

Lemma filter_label_twice (x : string) l i j :
  i ≠ j → l !! i = Some x → l !! j = Some x →
  (2 ≤ length (filter (λ y, y = x) l))%nat.
Proof.
  revert i j. induction l as [|a l IH]; intros i j Hij Hi Hj; [done|].
  rewrite filter_cons. destruct i as [|i], j as [|j]; simplify_eq/=.
  - rewrite decide_True by done. simpl.
    pose proof (filter_label_pos x l (list_elem_of_lookup_2 _ _ _ Hj)). lia.
  - rewrite decide_True by done. simpl.
    pose proof (filter_label_pos x l (list_elem_of_lookup_2 _ _ _ Hi)). lia.
  - assert (i ≠ j) as Hij' by congruence.
    pose proof (IH i j Hij' Hi Hj). case_decide; simpl; lia.
Qed.

(** A cell under another label is not touched by [setitem]. *)
Lemma rows_setitem_cells c f df k r i name :
  wf df → rows df !! k = Some r → columns df !! i = Some name → name ≠ c →
  ∃ r', rows (setitem c f df) !! k = Some r' ∧ r'.1 = r.1 ∧
        r'.2 !! i = r.2 !! i.
Proof.
  intros Hwf Hk Hi Hne.
  assert (length r.2 = length (columns df)) as Hlen.
  { unfold wf in Hwf. rewrite Forall_lookup in Hwf. by apply (Hwf k). }
  unfold setitem. destruct (decide (c ∈ columns df)); simpl;
    rewrite list_lookup_fmap, Hk; simpl;
    eexists; (split; [reflexivity|]); simpl; (split; [reflexivity|]).
  - rewrite lookup_set_cells, Hi. simpl.
    destruct (r.2 !! i); simpl; [|done]. by rewrite decide_False.
  - apply lookup_app_l. rewrite Hlen. by eapply lookup_lt_Some.
Qed.

(** C7, as stated, fails: the source columns [Qty] and [ QUANTITY ] both
    become [Quantity]; the mapped frame holds the label twice, and the
    first of the two columns still holds its own cells. *)
Lemma colliding_columns_are_both_kept :
  let df' := (standardize_columns two_quantities "a.csv").1 in
  new_label "Qty" = "Quantity"%string ∧
  new_label " QUANTITY " = "Quantity"%string ∧
  columns df' = ["Quantity"; "Quantity"; "Product"; "Source_File"]%string ∧
  count_label "Quantity" df' ≠ 1%nat ∧
  rows df' = [(0, [z 1; z 2; Str "Mouse"; Str "a.csv"]);
              (1, [z 3; z 4; Str "Pad"; Str "a.csv"])]%nat.
Proof. by_compute. Qed.

(** C7, amended.  When two distinct source columns map to the same
    canonical name, the mapped frame keeps both, each at its position
    and with its own cells, both under the canonical name: the name
    appears at least twice and nothing is overwritten. *)
Theorem colliding_columns_keep_their_cells
    (df : DataFrame) (file_name : string) (i j : nat) (c1 c2 x : string) :
  wf df →
  i ≠ j →
  columns df !! i = Some c1 →
  columns df !! j = Some c2 →
  column_mapping !! strip (lower c1) = Some x →
  column_mapping !! strip (lower c2) = Some x →
  let df' := (standardize_columns df file_name).1 in
  columns df' !! i = Some x ∧
  columns df' !! j = Some x ∧
  (2 ≤ count_label x df')%nat ∧
  ∀ k r, rows df !! k = Some r →
    ∃ r', rows df' !! k = Some r' ∧ r'.1 = r.1 ∧
          r'.2 !! i = r.2 !! i ∧ r'.2 !! j = r.2 !! j.
Proof.
  intros Hwf Hij Hi Hj Hc1 Hc2 df'.
  pose proof (mapping_avoids_provenance _ _ Hc1) as Hx.
  set (df_r := rename (build_new_columns (columns df)) df).
  assert (columns df_r = new_label <$> columns df) as Hcols
    by apply columns_rename.
  assert (new_label c1 = x) as Hn1 by (unfold new_label; by rewrite Hc1).
  assert (new_label c2 = x) as Hn2 by (unfold new_label; by rewrite Hc2).
  assert (columns df_r !! i = Some x) as Hri
    by (by rewrite Hcols, list_lookup_fmap, Hi; simpl; rewrite Hn1).
  assert (columns df_r !! j = Some x) as Hrj
    by (by rewrite Hcols, list_lookup_fmap, Hj; simpl; rewrite Hn2).
  assert (wf df_r) as Hwfr by (by apply wf_rename).
  assert (∀ n, columns df_r !! n = Some x → columns df' !! n = Some x) as Hkeep.
  { intros n Hn. unfold df', standardize_columns. simpl. fold df_r.
    rewrite columns_setitem. case_decide; [done|].
    by apply lookup_app_l_Some. }
  split; [by apply Hkeep|]. split; [by apply Hkeep|]. split.
  - unfold count_label. eapply filter_label_twice; [exact Hij|..]; by apply Hkeep.
  - intros k r Hk. unfold df', standardize_columns. simpl. fold df_r.
    assert (rows df_r !! k = Some r) as Hkr by done.
    destruct (rows_setitem_cells "Source_File" (λ _, Str file_name)
                df_r k r i x Hwfr Hkr Hri Hx) as (r1 & Hr1 & Hl1 & Hi1).
    destruct (rows_setitem_cells "Source_File" (λ _, Str file_name)
                df_r k r j x Hwfr Hkr Hrj Hx) as (r2 & Hr2 & _ & Hj2).
    exists r1. rewrite Hr1 in Hr2. by simplify_eq.
Qed.

Lemma colliding_columns_keep_their_cells_witness :
  let df' := (standardize_columns two_quantities "a.csv").1 in
  columns df' !! 0%nat = Some "Quantity"%string ∧
  columns df' !! 1%nat = Some "Quantity"%string ∧
  (2 ≤ count_label "Quantity" df')%nat.
Proof.
  destruct (colliding_columns_keep_their_cells two_quantities "a.csv"
              0 1 "Qty" " QUANTITY " "Quantity")
    as (H0 & H1 & H2 & _).
  - by_compute.
  - lia.
  - reflexivity.
  - reflexivity.
  - by_compute.
  - by_compute.
  - exact (conj H0 (conj H1 H2)).
Defined.

(** ** Frames as objects *)

Lemma touches_only_ret {A} l (a : A) : touches_only l (ret a).
Proof. by intros σ l0 _. Qed.

Lemma touches_only_bind {A B} l (m : M A) (k : A → M B) :
  touches_only l m → (∀ a, touches_only l (k a)) → touches_only l (bind m k).
Proof.
  intros Hm Hk σ l0 Hl0. unfold bind. specialize (Hm σ l0 Hl0).
  destruct (m σ) as [σ' [a|e]]; simpl in *; [|done].
  by rewrite (Hk a σ' l0 Hl0).
Qed.

Lemma touches_only_read {A} l (f : DataFrame → A) : touches_only l (read l f).
Proof. intros σ l0 _. unfold read. by destruct (σ !! l). Qed.

Lemma touches_only_update l f : touches_only l (update l f).
Proof.
  intros σ l0 Hl0. unfold update. destruct (σ !! l) as [d|]; [|done].
  destruct (f d); simpl; [|done]. by rewrite lookup_insert_ne.
Qed.

Lemma runs_as_ret {A} l (a : A) : runs_as l (ret a) Ok a.
Proof. intros σ d Hd. exists σ. split; [done|]. by intros d' [= <-]. Qed.

Lemma runs_as_update l f : runs_as l (update l f) f ().
Proof.
  intros σ d Hd. unfold update. rewrite Hd. destruct (f d) as [d'|e].
  - eexists. split; [done|]. intros ? [= <-]. by rewrite lookup_insert_eq.
  - by eexists.
Qed.

Lemma runs_as_bind {A} l (m : M unit) (m' : M A) f g a :
  runs_as l m f () → runs_as l m' g a →
  runs_as l (let* _ := m in m') (λ d, f d ≫= g) a.
Proof.
  intros Hm Hm' σ d Hd. destruct (Hm σ d Hd) as (σ' & Hrun & Hσ').
  unfold bind. rewrite Hrun. destruct (f d) as [d'|e]; simpl.
  - apply Hm'. by apply Hσ'.
  - by eexists.
Qed.

Lemma runs_as_read {A} l (p : DataFrame → bool) (m1 m2 : M A) f1 f2 a :
  runs_as l m1 f1 a → runs_as l m2 f2 a →
  runs_as l (let* b := read l p in if b : bool then m1 else m2)
            (λ d, if p d then f1 d else f2 d) a.
Proof.
  intros H1 H2 σ d Hd. unfold bind, read. rewrite Hd.
  destruct (p d); [by apply H1|by apply H2].
Qed.

Lemma runs_as_ext {A} l (m : M A) f g a :
  (∀ d, f d = g d) → runs_as l m f a → runs_as l m g a.
Proof.
  intros Hfg Hm σ d Hd. destruct (Hm σ d Hd) as (σ' & Hrun & Hσ').
  exists σ'. rewrite <- (Hfg d). split; [done|]. auto.
Qed.

Section objects_facts.
Variable parse_datetime : cell → option Z.
Variable parse_number : string → option number.

Lemma touches_only_coerce_numeric cs l :
  touches_only l (coerce_numeric_obj parse_number cs l).
Proof.
  induction cs as [|c cs IH]; simpl; [apply touches_only_ret|].
  apply touches_only_bind; [apply touches_only_read|].
  intros [|]; [|done].
  apply touches_only_bind; [apply touches_only_update|done].
Qed.

Lemma touches_only_parse_date_columns cs l :
  touches_only l (parse_date_columns_obj parse_datetime cs l).
Proof.
  induction cs as [|c cs IH]; simpl; [apply touches_only_ret|].
  apply touches_only_bind; [apply touches_only_read|].
  intros [|]; [|done].
  apply touches_only_bind; [apply touches_only_update|done].
Qed.

Lemma runs_as_coerce_numeric cs l :
  runs_as l (coerce_numeric_obj parse_number cs l)
            (coerce_numeric parse_number cs) ().
Proof.
  induction cs as [|c cs IH]; simpl; [apply runs_as_ret|].
  eapply runs_as_ext; [|apply runs_as_read;
    [apply runs_as_bind; [apply runs_as_update|exact IH]|exact IH]].
  intros d. simpl. case_bool_decide.
  - rewrite (decide_True (P := c ∈ columns d)) by done.
    by destruct (decide (count_label c d = 1%nat)).
  - by rewrite decide_False.
Qed.

Lemma runs_as_parse_date_columns cs l :
  runs_as l (parse_date_columns_obj parse_datetime cs l)
            (λ d, Ok (parse_date_columns parse_datetime cs d)) ().
Proof.
  induction cs as [|c cs IH]; simpl; [apply runs_as_ret|].
  eapply runs_as_ext; [|apply runs_as_read;
    [apply runs_as_bind; [apply runs_as_update|exact IH]|exact IH]].
  intros d. simpl. unfold parse_date_columns. simpl. by case_bool_decide;
    [rewrite decide_True by done|rewrite decide_False by done].
Qed.

Lemma basic_data_cleaning_obj_unfold df :
  basic_data_cleaning_obj parse_datetime parse_number df
  = (let* df_clean := copy df in cleaning_body parse_datetime parse_number df_clean).
Proof. reflexivity. Qed.

Lemma touches_only_cleaning_body l : touches_only l (cleaning_body parse_datetime parse_number l).
Proof.
  unfold cleaning_body.
  apply touches_only_bind; [apply touches_only_read|]. intros [|];
    repeat first
      [ apply touches_only_ret
      | apply touches_only_update
      | apply touches_only_coerce_numeric
      | apply touches_only_parse_date_columns
      | apply touches_only_bind; [|intros ?] ].
Qed.

Lemma runs_as_cleaning_body l :
  runs_as l (cleaning_body parse_datetime parse_number l)
            (basic_data_cleaning parse_datetime parse_number) l.
Proof.
  unfold cleaning_body.
  eapply runs_as_ext; cycle 1.
  { apply runs_as_read.
    - repeat (eapply runs_as_bind; [first [apply runs_as_update
                | apply runs_as_coerce_numeric]|]).
      apply runs_as_ret.
    - eapply runs_as_bind; [apply runs_as_parse_date_columns|].
      eapply runs_as_bind; [apply runs_as_coerce_numeric|].
      apply runs_as_ret. }
  intros d. unfold basic_data_cleaning. destruct (has_sales_data d).
  - destruct (fill_price d) as [d1|]; cbn [mbind result_bind]; [|done].
    destruct (fill_region d1) as [d2|]; cbn [mbind result_bind]; [|done].
    destruct (clamp_quantity _) as [d5|]; cbn [mbind result_bind]; [|done].
    destruct (derive_sales d5) as [d6|]; cbn [mbind result_bind]; [|done].
    by destruct (coerce_numeric _ _ d6).
  - cbn [mbind result_bind]. by destruct (coerce_numeric _ _ _).
Qed.

End objects_facts.

Lemma fresh_object (σ : store) : σ !! fresh (dom σ) = None.
Proof. apply not_elem_of_dom, is_fresh. Qed.

Lemma standardize_columns_obj_spec (σ : store) df file_name t :
  σ !! df = Some t →
  let df_std := fresh (dom σ) in
  ∃ σ1,
    standardize_columns_obj df file_name σ
      = (σ1, Ok (df_std, (standardize_columns t file_name).2)) ∧
    σ1 !! df_std = Some (standardize_columns t file_name).1 ∧
    ∀ l, l ≠ df_std → σ1 !! l = σ !! l.
Proof.
  intros Ht df_std.
  unfold standardize_columns_obj, bind, copy, read, update, ret.
  rewrite Ht. fold df_std. rewrite !lookup_insert_eq. simpl.
  eexists. split; [reflexivity|]. split; [by rewrite lookup_insert_eq|].
  intros l Hl. by rewrite !lookup_insert_ne.
Qed.

Lemma basic_data_cleaning_obj_spec pd pn (σ : store) df t :
  σ !! df = Some t →
  let df_clean := fresh (dom σ) in
  ∃ σ',
    basic_data_cleaning_obj pd pn df σ
      = (σ', (λ _, df_clean) <$> basic_data_cleaning pd pn t) ∧
    (∀ t', basic_data_cleaning pd pn t = Ok t' → σ' !! df_clean = Some t') ∧
    ∀ l, l ≠ df_clean → σ' !! l = σ !! l.
Proof.
  intros Ht df_clean. rewrite basic_data_cleaning_obj_unfold.
  unfold bind at 1. unfold copy. rewrite Ht. fold df_clean.
  destruct (runs_as_cleaning_body pd pn df_clean (<[df_clean:=t]> σ) t)
    as (σ' & Hrun & Hres); [by rewrite lookup_insert_eq|].
  exists σ'. split; [done|]. split; [done|].
  intros l Hl.
  pose proof (touches_only_cleaning_body pd pn df_clean
                (<[df_clean:=t]> σ) l Hl) as Hframe.
  rewrite Hrun in Hframe. simpl in Hframe.
  by rewrite Hframe, lookup_insert_ne.
Qed.

(** C9.  Mapping and cleaning work on copies.  Run on the object [df] of
    a store, [standardize_columns] returns a new object holding the
    mapped frame and [basic_data_cleaning], run on that object, returns
    another new object holding the cleaned frame (or raises what the
    function on frames raises); every object of the store, [df] and the
    mapped frame among them, holds afterwards the frame it held before. *)
Theorem mapping_and_cleaning_leave_input_untouched
    (parse_datetime : cell → option Z) (parse_number : string → option number)
    (σ : store) (df : nat) (file_name : string) (t : DataFrame) :
  σ !! df = Some t →
  ∃ σ1 df_std,
    standardize_columns_obj df file_name σ
      = (σ1, Ok (df_std, (standardize_columns t file_name).2)) ∧
    df_std ≠ df ∧
    σ1 !! df_std = Some (standardize_columns t file_name).1 ∧
    (∀ l v, σ !! l = Some v → σ1 !! l = Some v) ∧
    ∃ σ2 r,
      basic_data_cleaning_obj parse_datetime parse_number df_std σ1 = (σ2, r) ∧
      (∀ l v, σ1 !! l = Some v → σ2 !! l = Some v) ∧
      σ2 !! df = Some t ∧
      match r with
      | Ok df_clean =>
          df_clean ≠ df ∧ df_clean ≠ df_std ∧
          ∃ t', basic_data_cleaning parse_datetime parse_number
                  (standardize_columns t file_name).1 = Ok t' ∧
                σ2 !! df_clean = Some t'
      | Raise e =>
          basic_data_cleaning parse_datetime parse_number
            (standardize_columns t file_name).1 = Raise e
      end.
Proof.
  intros Ht.
  destruct (standardize_columns_obj_spec σ df file_name t Ht)
    as (σ1 & Hrun1 & Hstd & Hframe1).
  set (df_std := fresh (dom σ)) in *.
  assert (∀ l v, σ !! l = Some v → l ≠ df_std) as Hold.
  { intros l v Hl ->. unfold df_std in Hl. by rewrite fresh_object in Hl. }
  assert (∀ l v, σ !! l = Some v → σ1 !! l = Some v) as Hkeep1.
  { intros l v Hl. rewrite Hframe1; [done|by eapply Hold]. }
  exists σ1, df_std. split; [done|]. split; [by apply not_eq_sym, (Hold _ t)|].
  split; [done|]. split; [done|].
  destruct (basic_data_cleaning_obj_spec parse_datetime parse_number
              σ1 df_std _ Hstd) as (σ2 & Hrun2 & Hres & Hframe2).
  set (df_clean := fresh (dom σ1)) in *.
  assert (∀ l v, σ1 !! l = Some v → l ≠ df_clean) as Hold1.
  { intros l v Hl ->. unfold df_clean in Hl. by rewrite fresh_object in Hl. }
  assert (∀ l v, σ1 !! l = Some v → σ2 !! l = Some v) as Hkeep2.
  { intros l v Hl. rewrite Hframe2; [done|by eapply Hold1]. }
  eexists σ2, _. split; [exact Hrun2|]. split; [done|].
  split; [by apply Hkeep2, Hkeep1|].
  destruct (basic_data_cleaning _ _ _) as [t'|e]; simpl; [|done].
  split; [apply not_eq_sym, (Hold1 _ t); by apply Hkeep1|].
  split; [by apply not_eq_sym, (Hold1 _ _ Hstd)|].
  exists t'. split; [done|]. by apply Hres.
Qed.

Lemma mapping_and_cleaning_leave_input_untouched_witness :
  ∃ σ1 σ2 df_std r,
    standardize_columns_obj 0 "a.csv" {[ 0%nat := two_quantities ]}
      = (σ1, Ok (df_std, (standardize_columns two_quantities "a.csv").2)) ∧
    basic_data_cleaning_obj no_dates no_numbers df_std σ1 = (σ2, r) ∧
    σ2 !! 0%nat = Some two_quantities.
Proof.
  destruct (mapping_and_cleaning_leave_input_untouched no_dates no_numbers
              {[ 0%nat := two_quantities ]} 0 "a.csv" two_quantities)
    as (σ1 & df_std & H1 & _ & _ & _ & σ2 & r & H2 & _ & H3 & _).
  - apply lookup_singleton_eq.
  - by exists σ1, σ2, df_std, r.
Defined.

(** ** The merge engine *)

Lemma cell_at_absent cols c r : c ∉ cols → cell_at cols c r = NaN.
Proof. intros Hc%col_index_None. unfold cell_at. by rewrite Hc. Qed.

Lemma cell_at_fmap cs c (g : string → cell) :
  c ∈ cs → cell_at cs c (g <$> cs) = g c.
Proof.
  intros Hc. unfold cell_at.
  destruct (col_index_elem_of _ _ Hc) as [i Hi]. rewrite Hi. simpl.
  apply col_index_Some in Hi as [Hi _].
  by rewrite list_lookup_fmap, Hi.
Qed.

Lemma column_select cs df c :
  c ∈ cs → column (select cs df) c = column df c.
Proof.
  intros Hc. unfold column, select. simpl. rewrite <- list_fmap_compose.
  apply list_fmap_ext. intros i r _. simpl. by apply cell_at_fmap.
Qed.

Lemma len_select cs df : len (select cs df) = len df.
Proof. unfold len, select. simpl. by rewrite length_fmap. Qed.

Lemma length_reset_rows rs : length (reset_rows rs) = length rs.
Proof. unfold reset_rows. by rewrite length_imap. Qed.

Lemma snd_reset_rows rs : (reset_rows rs).*2 = rs.*2.
Proof.
  unfold reset_rows. apply list_eq. intros i.
  rewrite !list_lookup_fmap, list_lookup_imap. by destruct (rs !! i).
Qed.

Lemma fst_reset_rows rs : (reset_rows rs).*1 = seq 0 (length rs).
Proof.
  unfold reset_rows. apply list_eq. intros i.
  rewrite !list_lookup_fmap, list_lookup_imap.
  destruct (rs !! i) as [r|] eqn:Hi; simpl.
  - symmetry. apply lookup_seq. split; [done|]. by eapply lookup_lt_Some.
  - symmetry. apply lookup_ge_None. rewrite length_seq.
    by apply lookup_ge_None.
Qed.

(** A column is read off the cells of the rows, whatever their labels. *)
Lemma column_cells cols rs c :
  column (mkDF cols rs) c = cell_at cols c <$> rs.*2.
Proof. unfold column. simpl. by rewrite <- list_fmap_compose. Qed.

Lemma column_reset_rows cols rs c :
  column (mkDF cols (reset_rows rs)) c = column (mkDF cols rs) c.
Proof. by rewrite !column_cells, snd_reset_rows. Qed.

(** *** Labels in order of first appearance *)

Lemma ordered_union_unfold ls :
  ordered_union ls = foldl add_label [] (mjoin ls).
Proof. done. Qed.

Lemma elem_of_foldl_add_label acc xs c :
  c ∈ foldl add_label acc xs ↔ c ∈ acc ∨ c ∈ xs.
Proof.
  revert acc. induction xs as [|x xs IH]; intros acc; simpl.
  - rewrite elem_of_nil. tauto.
  - rewrite IH. unfold add_label. rewrite elem_of_cons.
    destruct (decide (x ∈ acc)) as [Hx|Hx].
    + split; [tauto|]. intros [?|[->|?]]; tauto.
    + rewrite elem_of_app, list_elem_of_singleton. tauto.
Qed.

Lemma elem_of_ordered_union ls c :
  c ∈ ordered_union ls ↔ ∃ l, l ∈ ls ∧ c ∈ l.
Proof.
  rewrite ordered_union_unfold, elem_of_foldl_add_label, elem_of_nil.
  rewrite list_elem_of_join. split.
  - intros [[]|(l & Hc & Hl)]. by exists l.
  - intros (l & Hl & Hc). right. by exists l.
Qed.

Lemma foldl_add_label_NoDup acc xs :
  NoDup (acc ++ xs) → foldl add_label acc xs = acc ++ xs.
Proof.
  revert acc. induction xs as [|x xs IH]; intros acc Hnd; simpl.
  - by rewrite app_nil_r.
  - unfold add_label at 2. rewrite decide_False.
    + rewrite IH; rewrite <- app_assoc; done.
    + apply NoDup_app in Hnd as (_ & Hd & _). intros Hx.
      apply (Hd x Hx). left.
Qed.

Lemma foldl_add_label_subseteq acc xs :
  (∀ x, x ∈ xs → x ∈ acc) → foldl add_label acc xs = acc.
Proof.
  intros H. induction xs as [|x xs IH]; simpl; [done|].
  unfold add_label at 2. rewrite decide_True by (apply H; left).
  apply IH. intros y Hy. apply H. by right.
Qed.

(** Frames that all carry the same duplicate-free labels keep them. *)
Lemma ordered_union_same cols (dfs : list DataFrame) :
  dfs ≠ [] → NoDup cols → Forall (λ df, columns df = cols) dfs →
  ordered_union (columns <$> dfs) = cols.
Proof.
  intros Hne Hnd Hall. destruct dfs as [|d ds]; [done|].
  inv Hall. rewrite ordered_union_unfold, fmap_cons. simpl.
  rewrite foldl_app, (foldl_add_label_NoDup []) by done. simpl.
  apply foldl_add_label_subseteq. intros x (l & Hx & Hl)%list_elem_of_join.
  apply list_elem_of_fmap in Hl as (df & -> & Hdf).
  match goal with H : Forall _ ds |- _ => rewrite Forall_forall in H;
    by rewrite (H df Hdf) in Hx end.
Qed.

(** *** Concatenation *)

Lemma align_Ok cols df a :
  align cols df = Ok a →
  columns a = cols ∧ len a = len df ∧
  ∀ c, c ∈ cols → column a c = column df c.
Proof.
  unfold align, reindex. case_decide as Hc.
  - intros [= <-]. done.
  - case_decide; [|done]. intros [= <-].
    split; [done|]. split; [apply len_select|]. intros c. apply column_select.
Qed.

Lemma aligned_rows cols dfs aligned :
  Forall2 (λ df a, align cols df = Ok a) dfs aligned →
  length (mjoin (rows <$> aligned)) = sum_len dfs ∧
  ∀ c, c ∈ cols →
    cell_at cols c <$> (mjoin (rows <$> aligned)).*2
    = mjoin ((λ df, column df c) <$> dfs).
Proof.
  induction 1 as [|df a l1 l2 Ha _ [IHlen IHcol]]; [done|].
  apply align_Ok in Ha as (Hcols & Hl & Hcol). split.
  - change (mjoin (rows <$> a :: l2)) with (rows a ++ mjoin (rows <$> l2)).
    change (sum_len (df :: l1)) with (len df + sum_len l1)%nat.
    rewrite length_app, IHlen. unfold len in Hl. by rewrite Hl.
  - intros c Hc.
    change (mjoin (rows <$> a :: l2)) with (rows a ++ mjoin (rows <$> l2)).
    change (mjoin ((λ df0, column df0 c) <$> df :: l1))
      with (column df c ++ mjoin ((λ df0, column df0 c) <$> l1)).
    rewrite fmap_app, fmap_app, IHcol by done. f_equal.
    rewrite <- (Hcol c Hc). destruct a as [acols arows]. simpl in *.
    subst acols. by rewrite column_cells.
Qed.

Lemma concat_Ok dfs m :
  concat dfs = Ok m →
  dfs ≠ [] ∧
  columns m = ordered_union (columns <$> dfs) ∧
  len m = sum_len dfs ∧
  index m = seq 0 (len m) ∧
  ∀ c, c ∈ columns m → column m c = mjoin ((λ df, column df c) <$> dfs).
Proof.
  unfold concat. destruct dfs as [|d0 ds]; [done|].
  set (dfs := d0 :: ds). set (cols := ordered_union (columns <$> dfs)).
  destruct (traverse (align cols) dfs) as [aligned|] eqn:Hal; cbn; [|done].
  intros [= <-]. split; [done|]. split; [done|].
  apply traverse_Ok_inv, aligned_rows in Hal as [Hlen Hcol].
  split; [unfold len; simpl; by rewrite length_reset_rows|].
  split.
  { unfold index, len. simpl. by rewrite fst_reset_rows, length_reset_rows. }
  simpl. intros c Hc. rewrite column_reset_rows, column_cells. by apply Hcol.
Qed.

(** *** Tier 1 *)

Lemma elem_of_all_columns_of dfs c :
  c ∈ all_columns_of dfs ↔ ∃ df, df ∈ dfs ∧ c ∈ columns df.
Proof.
  unfold all_columns_of.
  assert (∀ acc : gset string,
    c ∈ foldl (λ all df, all ∪ list_to_set (columns df)) acc dfs
    ↔ c ∈ acc ∨ ∃ df, df ∈ dfs ∧ c ∈ columns df) as H.
  { induction dfs as [|d dfs IH]; intros acc; simpl.
    - split; [by left|]. intros [?|(df & Hdf & _)]; [done|].
      by apply elem_of_nil in Hdf.
    - rewrite IH, elem_of_union, elem_of_list_to_set. split.
      + intros [[?|?]|(df & Hdf & Hc)]; [by left|right; exists d|right; exists df];
          (split; [|done]); [left|by right].
      + intros [?|(df & [->|Hdf]%elem_of_cons & Hc)];
          [by left; left|by left; right|right; by exists df]. }
  rewrite H. split; [|by right]. intros [Hc|?]; [|done].
  by apply elem_of_empty in Hc.
Qed.

Lemma sorted_labels_Sorted all : Sorted String.le (sorted_labels all).
Proof. apply (Sorted_merge_sort String.le). Qed.

Lemma sorted_labels_Permutation all : sorted_labels all ≡ₚ elements all.
Proof. apply (merge_sort_Permutation String.le). Qed.

Lemma sorted_labels_NoDup all : NoDup (sorted_labels all).
Proof. rewrite sorted_labels_Permutation. apply NoDup_elements. Qed.

Lemma elem_of_sorted_labels all c : c ∈ sorted_labels all ↔ c ∈ all.
Proof. by rewrite sorted_labels_Permutation, elem_of_elements. Qed.

(** Adding new columns of missing cells changes no column. *)
Lemma add_columns ms df :
  wf df → NoDup ms → (∀ c, c ∈ ms → c ∉ columns df) →
  let df' := foldl (λ d col, setitem col (λ _, NaN) d) df ms in
  columns df' = columns df ++ ms ∧ wf df' ∧ len df' = len df ∧
  ∀ c, column df' c = column df c.
Proof.
  revert df. induction ms as [|x ms IH]; intros df Hwf Hnd Hms; simpl.
  { by rewrite app_nil_r. }
  apply NoDup_cons in Hnd as [Hx Hnd].
  assert (x ∉ columns df) as Hxc by (apply Hms; left).
  set (df1 := setitem x (λ _, NaN) df).
  assert (columns df1 = columns df ++ [x]) as Hc1
    by (unfold df1; by rewrite columns_setitem, decide_False).
  destruct (IH df1) as (Hcols & Hwf' & Hlen & Hcol).
  - by apply wf_setitem.
  - done.
  - intros c Hc. rewrite Hc1, elem_of_app, list_elem_of_singleton.
    intros [?| ->]; [|done]. apply (Hms c); [by right|done].
  - split; [by rewrite Hcols, Hc1, <- app_assoc|]. split; [done|].
    split; [by rewrite Hlen; apply len_setitem|].
    intros c. rewrite Hcol. destruct (decide (c = x)) as [->|Hne].
    + unfold df1. rewrite column_setitem_eq by done. unfold column.
      apply list_fmap_ext. intros i r _. simpl. by rewrite cell_at_absent.
    + unfold df1. by rewrite column_setitem_ne.
Qed.

Lemma add_missing_facts all df :
  wf df →
  columns (add_missing all df)
    = columns df ++ elements (all ∖ list_to_set (columns df)) ∧
  len (add_missing all df) = len df ∧
  ∀ c, column (add_missing all df) c = column df c.
Proof.
  intros Hwf. unfold add_missing.
  destruct (add_columns (elements (all ∖ list_to_set (columns df))) df)
    as (H1 & _ & H2 & H3); [done|apply NoDup_elements| |done].
  intros c. rewrite elem_of_elements, elem_of_difference, elem_of_list_to_set.
  tauto.
Qed.

Lemma add_missing_NoDup all df :
  wf df → NoDup (columns df) → NoDup (columns (add_missing all df)).
Proof.
  intros Hwf Hnd. destruct (add_missing_facts all df Hwf) as (-> & _).
  apply NoDup_app. split; [done|]. split; [|apply NoDup_elements].
  intros c Hc. rewrite elem_of_elements, elem_of_difference, elem_of_list_to_set.
  tauto.
Qed.

Lemma standardize_Ok all df s :
  wf df → standardize all df = Ok s →
  columns s = sorted_labels all ∧ len s = len df ∧
  ∀ c, c ∈ sorted_labels all → column s c = column df c.
Proof.
  intros Hwf. unfold standardize, reindex. case_decide; [|done].
  intros [= <-]. destruct (add_missing_facts all df Hwf) as (_ & Hlen & Hcol).
  split; [done|]. split; [by rewrite len_select|].
  intros c Hc. by rewrite column_select, Hcol.
Qed.

Lemma standardized_frames all dfs std :
  Forall wf dfs →
  Forall2 (λ df s, standardize all df = Ok s) dfs std →
  Forall (λ s, columns s = sorted_labels all) std ∧
  sum_len std = sum_len dfs ∧
  ∀ c, c ∈ sorted_labels all →
    mjoin ((λ s, column s c) <$> std) = mjoin ((λ df, column df c) <$> dfs).
Proof.
  intros Hwf H. induction H as [|df s l1 l2 Hs _ IH]; [done|].
  inv Hwf. destruct IH as (IH1 & IH2 & IH3); [done|].
  destruct (standardize_Ok all df s) as (Hc & Hl & Hcol); [done..|].
  split; [by constructor|]. split.
  - change (sum_len (s :: l2)) with (len s + sum_len l2)%nat.
    change (sum_len (df :: l1)) with (len df + sum_len l1)%nat. lia.
  - intros c Hin.
    change (mjoin ((λ s0, column s0 c) <$> s :: l2))
      with (column s c ++ mjoin ((λ s0, column s0 c) <$> l2)).
    change (mjoin ((λ df0, column df0 c) <$> df :: l1))
      with (column df c ++ mjoin ((λ df0, column df0 c) <$> l1)).
    by rewrite IH3, Hcol.
Qed.

Lemma full_union_merge_Ok dfs m :
  Forall wf dfs → full_union_merge dfs = Ok m →
  dfs ≠ [] ∧
  columns m = sorted_labels (all_columns_of dfs) ∧
  len m = sum_len dfs ∧
  index m = seq 0 (len m) ∧
  ∀ c, c ∈ columns m → column m c = mjoin ((λ df, column df c) <$> dfs).
Proof.
  intros Hwf. unfold full_union_merge.
  fold (standardize (all_columns_of dfs)).
  destruct (traverse _ dfs) as [std|] eqn:Hstd; cbn [mbind result_bind]; [|done].
  intros Hm. apply traverse_Ok_inv in Hstd.
  assert (dfs ≠ []) as Hne.
  { intros ->. by inv Hstd. }
  destruct (standardized_frames _ _ _ Hwf Hstd) as (Hcols & Hlen & Hcol).
  destruct (concat_Ok _ _ Hm) as (Hne' & Hc & Hl & Hi & Hcm).
  rewrite ordered_union_same with (cols := sorted_labels (all_columns_of dfs))
    in Hc; [|done|apply sorted_labels_NoDup|done].
  split; [done|]. split; [done|]. split; [by rewrite Hl|]. split; [done|].
  intros c Hin. rewrite Hcm, Hcol; [done|by rewrite <- Hc|done].
Qed.

Lemma concat_total cols dfs :
  dfs ≠ [] → NoDup cols → Forall (λ df, columns df = cols) dfs →
  ∃ m, concat dfs = Ok m.
Proof.
  intros Hne Hnd Hall. unfold concat.
  rewrite (ordered_union_same cols) by done.
  rewrite (traverse_Ok_fmap _ id).
  2:{ eapply Forall_impl; [exact Hall|]. intros df Hdf. unfold align.
      by rewrite decide_True. }
  destruct dfs; [done|]. cbn [mbind result_bind]. by eexists.
Qed.

Lemma full_union_merge_total dfs :
  dfs ≠ [] → Forall wf dfs → Forall (λ df, NoDup (columns df)) dfs →
  ∃ m, full_union_merge dfs = Ok m.
Proof.
  intros Hne Hwf Hnd. unfold full_union_merge.
  set (all := all_columns_of dfs).
  rewrite (traverse_Ok_fmap _ (λ df, select (sorted_labels all) (add_missing all df))).
  2:{ rewrite Forall_forall in *. intros df Hdf. unfold reindex.
      rewrite decide_True; [done|]. apply add_missing_NoDup; auto. }
  cbn [mbind result_bind].
  apply (concat_total (sorted_labels all)).
  - by destruct dfs.
  - apply sorted_labels_NoDup.
  - by rewrite Forall_fmap, Forall_forall.
Qed.

(** *** The preparation loop *)

Local Close Scope Qc_scope.

Lemma last_char_cons a s : s ≠ EmptyString → last_char (String a s) = last_char s.
Proof. by destruct s. Qed.

Lemma append_cons a s1 s2 : (String a s1 +:+ s2 = String a (s1 +:+ s2))%string.
Proof. done. Qed.

Lemma append_nil_inv s1 s2 : (s1 +:+ s2)%string = EmptyString → s2 = EmptyString.
Proof. destruct s1; [done|]. by rewrite append_cons. Qed.

Lemma last_char_app s1 s2 :
  s2 ≠ EmptyString → last_char (s1 +:+ s2) = last_char s2.
Proof.
  intros Hs2. induction s1 as [|a s1 IH]; [done|].
  rewrite append_cons, last_char_cons; [done|].
  by intros ?%append_nil_inv.
Qed.

Lemma pretty_N_char_digit x : is_digit (pretty_N_char x).
Proof.
  unfold is_digit, pretty_N_char.
  repeat case_match; repeat (first [by left | right]).
Qed.

Lemma last_char_pretty_N_go x s :
  s ≠ EmptyString → last_char (pretty_N_go x s) = last_char s.
Proof.
  revert s. induction (N.lt_wf_0 x) as [x _ IH]; intros s Hs.
  assert (x = 0 ∨ 0 < x)%N as [->|Hx] by lia.
  - by rewrite pretty_N_go_0.
  - rewrite pretty_N_go_step by done. rewrite IH.
    + by apply last_char_cons.
    + by apply N.div_lt.
    + done.
Qed.

Lemma last_char_pretty (k : nat) :
  ∃ d, last_char (pretty k) = Some d ∧ is_digit d.
Proof.
  unfold pretty, pretty_nat, pretty, pretty_N. case_decide as Hk.
  - exists "0"%char. split; [done|]. left.
  - rewrite pretty_N_go_step by lia.
    rewrite last_char_pretty_N_go by done. eexists. split; [done|].
    apply pretty_N_char_digit.
Qed.

(** A generated label ends with a digit. *)
Lemma last_char_generated col (k : nat) :
  ∃ d, last_char (col +:+ "_" +:+ pretty k) = Some d ∧ is_digit d.
Proof.
  destruct (last_char_pretty k) as (d & Hd & Hdig). exists d. split; [|done].
  assert (pretty k ≠ EmptyString) as Hne by (intros E; by rewrite E in Hd).
  rewrite last_char_app.
  - by rewrite (last_char_app "_").
  - by intros ?%append_nil_inv.
Qed.

Lemma generated_is_not_provenance col (k : nat) :
  (col +:+ "_" +:+ pretty k)%string ≠ "Source_File"%string.
Proof.
  intros E. destruct (last_char_generated col k) as (d & Hd & Hdig).
  rewrite E in Hd. injection Hd as <-.
  unfold is_digit in Hdig. by repeat (apply elem_of_cons in Hdig as [?|Hdig]);
    try (by apply elem_of_nil in Hdig).
Qed.

Lemma fresh_suffix_generated fuel seen col k :
  ∃ j : nat, fresh_suffix fuel seen col k = (col +:+ "_" +:+ pretty j)%string.
Proof.
  revert k. induction fuel as [|fuel IH]; intros k; simpl; [by eexists|].
  case_decide; [apply IH|by eexists].
Qed.

(** The search for a free suffix succeeds within its bound. *)
Lemma fresh_suffix_not_seen (seen' seen : gset string) fuel col k :
  size seen' ≤ fuel →
  (∀ j, k ≤ j → (col +:+ "_" +:+ pretty j)%string ∈ seen →
        (col +:+ "_" +:+ pretty j)%string ∈ seen') →
  fresh_suffix fuel seen col k ∉ seen.
Proof.
  revert seen' k. induction fuel as [|fuel IH]; intros seen' k Hsize Hsub; simpl.
  - apply Nat.le_0_r, size_empty_inv in Hsize. intros Hin.
    apply (Hsub k) in Hin; [|done]. by rewrite (leibniz_equiv _ _ Hsize) in Hin.
  - case_decide as Hin; [|done].
    apply (IH (seen' ∖ {[ (col +:+ "_" +:+ pretty k)%string ]})).
    + assert ((col +:+ "_" +:+ pretty k)%string ∈ seen') as Hin' by by apply Hsub.
      pose proof (size_difference seen' {[ (col +:+ "_" +:+ pretty k)%string ]}) as Hd.
      rewrite size_singleton in Hd.
      assert (0 < size seen').
      { apply Nat.neq_0_lt_0. intros ?%size_empty_inv.
        rewrite (leibniz_equiv _ _ H) in Hin'. by apply elem_of_empty in Hin'. }
      rewrite Hd by (by apply singleton_subseteq_l). lia.
    + intros j Hj Hjs. apply elem_of_difference. split; [apply Hsub; [lia|done]|].
      rewrite elem_of_singleton. intros E.
      apply (inj (String.app col)), (inj (String.app "_")), (inj pretty) in E. lia.
Qed.

Lemma fix_duplicates_NoDup seen cols :
  NoDup (fix_duplicates seen cols) ∧
  ∀ c, c ∈ fix_duplicates seen cols → c ∉ seen.
Proof.
  revert seen. induction cols as [|col cols IH]; intros seen; simpl.
  { split; [constructor|]. by intros c ?%elem_of_nil. }
  set (col' := if decide (col ∈ seen) then _ else col).
  assert (col' ∉ seen) as Hcol'.
  { unfold col'. case_decide; [|done].
    by apply (fresh_suffix_not_seen seen). }
  destruct (IH ({[col']} ∪ seen)) as [Hnd Hdis]. split.
  - constructor; [|done]. intros Hin%Hdis. apply Hin.
    apply elem_of_union_l, elem_of_singleton. done.
  - intros c [->|Hc]%elem_of_cons; [done|].
    intros Hs. apply (Hdis c Hc). by apply elem_of_union_r.
Qed.

Lemma length_fix_duplicates seen cols :
  length (fix_duplicates seen cols) = length cols.
Proof.
  revert seen. induction cols as [|col cols IH]; intros seen; simpl; [done|].
  by rewrite IH.
Qed.

Lemma col_index_cons x cols c :
  col_index (x :: cols) c
  = if decide (x = c) then Some 0 else S <$> col_index cols c.
Proof.
  unfold col_index. simpl. case_decide; [done|].
  by destruct (list_find _ cols) as [[i y]|].
Qed.

(** The first column labelled [Source_File] keeps its label and its
    place. *)
Lemma col_index_fix_duplicates seen cols :
  "Source_File"%string ∉ seen →
  col_index (fix_duplicates seen cols) "Source_File"
  = col_index cols "Source_File".
Proof.
  revert seen. induction cols as [|col cols IH]; intros seen Hs; [done|].
  cbn [fix_duplicates]. set (col' := if decide (col ∈ seen) then _ else col).
  rewrite !col_index_cons.
  destruct (decide (col = "Source_File"%string)) as [->|Hne].
  - assert (col' = "Source_File"%string) as ->
      by (unfold col'; by rewrite decide_False).
    by rewrite decide_True.
  - assert (col' ≠ "Source_File"%string) as Hne'.
    { unfold col'. case_decide; [|done].
      destruct (fresh_suffix_generated (size seen) seen col 1) as [j ->].
      apply generated_is_not_provenance. }
    rewrite decide_False by done.
    rewrite IH; [done|]. rewrite elem_of_union, elem_of_singleton.
    intros [?|?]; [by apply Hne'|done].
Qed.

Lemma wf_reset_index df : wf df → wf (reset_index df).
Proof.
  unfold wf, reset_index. simpl. rewrite !Forall_forall.
  intros H r Hr. unfold reset_rows in Hr.
  apply list_elem_of_lookup in Hr as [i Hi].
  rewrite list_lookup_imap in Hi.
  destruct (rows df !! i) as [r0|] eqn:Hr0; simplify_eq/=.
  apply H. by eapply list_elem_of_lookup_2.
Qed.

Lemma prepare_one_facts df :
  wf df →
  wf (prepare_one df) ∧ NoDup (columns (prepare_one df)) ∧
  len (prepare_one df) = len df ∧
  ("Source_File"%string ∈ columns df →
   "Source_File"%string ∈ columns (prepare_one df)) ∧
  column (prepare_one df) "Source_File" = column df "Source_File".
Proof.
  intros Hwf. unfold prepare_one. simpl. case_decide as Hnd.
  - split; [by apply wf_reset_index|]. split; [done|].
    split; [unfold len; simpl; apply length_reset_rows|]. split; [done|].
    unfold reset_index. by rewrite column_reset_rows; destruct df.
  - split.
    { pose proof (wf_reset_index df Hwf) as H. unfold wf in *. simpl in *.
      by rewrite length_fix_duplicates. }
    split; [apply fix_duplicates_NoDup|].
    split; [unfold len; simpl; apply length_reset_rows|].
    assert (col_index (fix_duplicates ∅ (columns df)) "Source_File"
            = col_index (columns df) "Source_File") as Hidx
      by (apply col_index_fix_duplicates, not_elem_of_empty).
    split.
    + intros [i Hi]%col_index_elem_of. rewrite <- Hidx in Hi.
      apply col_index_Some in Hi as [Hi _]. by eapply list_elem_of_lookup_2.
    + rewrite column_reset_rows. unfold column, cell_at. simpl.
      by rewrite Hidx.
Qed.

(** *** Tier 2 *)

Lemma elem_of_members groups df :
  df ∈ members groups ↔ ∃ g, g ∈ groups ∧ df ∈ g.2.
Proof.
  unfold members. rewrite list_elem_of_join. split.
  - intros (l & Hdf & (g & -> & Hg)%list_elem_of_fmap). by exists g.
  - intros (g & Hg & Hdf). exists g.2. split; [done|].
    apply list_elem_of_fmap. by exists g.
Qed.

Lemma members_add_to_group sig df groups x :
  x ∈ members (add_to_group sig df groups) ↔ x = df ∨ x ∈ members groups.
Proof.
  unfold members. induction groups as [|[sig' dfs] groups IH].
  - simpl. rewrite list_elem_of_singleton, elem_of_nil. tauto.
  - cbn [add_to_group]. case_decide.
    + change (x ∈ (dfs ++ [df]) ++ mjoin (groups.*2)
              ↔ x = df ∨ x ∈ dfs ++ mjoin (groups.*2)).
      rewrite !elem_of_app, list_elem_of_singleton. tauto.
    + change (x ∈ dfs ++ mjoin ((add_to_group sig df groups).*2)
              ↔ x = df ∨ x ∈ dfs ++ mjoin (groups.*2)).
      rewrite !elem_of_app, IH. tauto.
Qed.

Lemma members_group_by_columns dfs x :
  x ∈ members (group_by_columns dfs) ↔ x ∈ dfs.
Proof.
  unfold group_by_columns.
  assert (∀ groups,
    x ∈ members (foldl (λ groups df, add_to_group (signature df) df groups)
                       groups dfs)
    ↔ x ∈ members groups ∨ x ∈ dfs) as H.
  { induction dfs as [|d dfs IH]; intros groups; simpl.
    - rewrite elem_of_nil. tauto.
    - rewrite IH, members_add_to_group, elem_of_cons. tauto. }
  rewrite H. unfold members. simpl. rewrite elem_of_nil. tauto.
Qed.

Lemma merge_group_Ok c g m :
  merge_group g = Ok m → (∀ df, df ∈ g → c ∈ columns df) →
  c ∈ columns m ∧ ∀ df v, df ∈ g → v ∈ column df c → v ∈ column m c.
Proof.
  intros Hm Hc.
  assert ((∃ df, g = [df] ∧ m = df) ∨ concat g = Ok m) as [(df & -> & ->)|Hcat].
  { unfold merge_group in Hm. destruct g as [|d [|d' g]]; [by right| |by right].
    left. exists d. by simplify_eq. }
  - split; [apply Hc; left|]. by intros df' v ->%list_elem_of_singleton.
  - destruct (concat_Ok _ _ Hcat) as (Hne & Hcols & _ & _ & Hcol).
    assert (c ∈ columns m) as Hin.
    { rewrite Hcols. apply elem_of_ordered_union. destruct g as [|d g]; [done|].
      exists (columns d). split; [rewrite fmap_cons; left|apply Hc; left]. }
    split; [done|]. intros df v Hdf Hv. rewrite (Hcol c Hin).
    apply list_elem_of_join. exists (column df c). split; [done|].
    apply list_elem_of_fmap. by exists df.
Qed.

Lemma merge_pair_Ok c A B m :
  merge_pair A B = Ok m → c ∈ columns A → c ∈ columns B →
  c ∈ columns m ∧ column m c = column A c ++ column B c.
Proof.
  unfold merge_pair. intros Hm HA HB.
  set (common := elements (list_to_set (columns A) ∩ list_to_set (columns B)))
    in *.
  assert (c ∈ common) as Hc.
  { unfold common. rewrite elem_of_elements, elem_of_intersection.
    by rewrite !elem_of_list_to_set. }
  destruct common as [|c0 common'] eqn:E; [by apply elem_of_nil in Hc|].
  rewrite <- E in *. clear E.
  destruct (concat_Ok _ _ Hm) as (_ & Hcols & _ & _ & Hcol).
  assert (c ∈ columns m) as Hin.
  { rewrite Hcols. apply elem_of_ordered_union. exists common.
    split; [left|done]. }
  split; [done|]. rewrite (Hcol c Hin). simpl.
  by rewrite app_nil_r, !column_select.
Qed.

Lemma merge_groups_Ok c first rest m :
  merge_groups first rest = Ok m →
  c ∈ columns first → (∀ df, df ∈ rest → c ∈ columns df) →
  c ∈ columns m ∧
  column m c = column first c ++ mjoin ((λ df, column df c) <$> rest).
Proof.
  revert first. induction rest as [|df rest IH]; intros first Hm Hf Hr.
  - cbn in Hm. simplify_eq. by rewrite app_nil_r.
  - cbn in Hm. destruct (merge_pair first df) as [m1|] eqn:Hp;
      cbn in Hm; [|done].
    destruct (merge_pair_Ok c _ _ _ Hp Hf) as [Hc1 Hcol1]; [apply Hr; left|].
    destruct (IH m1 Hm Hc1) as [Hc Hcol]; [intros d Hd; apply Hr; by right|].
    split; [done|]. rewrite Hcol, Hcol1. simpl. by rewrite app_assoc.
Qed.

Lemma merged_groups_facts c
    (groups : list (list string * list DataFrame)) merged :
  Forall2 (λ g mg, merge_group g.2 = Ok mg) groups merged →
  (∀ g, g ∈ groups → ∀ d, d ∈ g.2 → c ∈ columns d) →
  Forall (λ mg, c ∈ columns mg) merged ∧
  ∀ g df v, g ∈ groups → df ∈ g.2 → v ∈ column df c →
    ∃ mg, mg ∈ merged ∧ v ∈ column mg c.
Proof.
  induction 1 as [|g' mg l1 l2 Hmg _ IH]; intros Hcg.
  { split; [done|]. by intros g df v ?%elem_of_nil. }
  destruct IH as [IH1 IH2]; [intros g Hg; apply Hcg; by right|].
  destruct (merge_group_Ok c _ _ Hmg) as [Hc Hv]; [apply Hcg; left|].
  split; [by constructor|].
  intros g df v [->|Hg]%elem_of_cons Hdf Hvdf.
  - exists mg. split; [left|by eapply Hv].
  - destruct (IH2 g df v Hg Hdf Hvdf) as (mg' & ? & ?).
    exists mg'. split; [by right|done].
Qed.

(** The fallback tier keeps every cell of a column that every frame has. *)
Lemma signature_grouped_merge_Ok c dfs m :
  signature_grouped_merge dfs = Ok m →
  (∀ df, df ∈ dfs → c ∈ columns df) →
  ∀ df v, df ∈ dfs → v ∈ column df c → v ∈ column m c.
Proof.
  unfold signature_grouped_merge. intros Hm Hc df v Hdf Hv.
  destruct (traverse _ (group_by_columns dfs)) as [merged|] eqn:Ht;
    cbn [mbind result_bind] in Hm; [|done].
  apply traverse_Ok_inv in Ht.
  apply members_group_by_columns, elem_of_members in Hdf as (g & Hg & Hdf).
  destruct (merged_groups_facts c _ _ Ht) as [Hcm Hvm].
  { intros g' Hg' d Hd. apply Hc, members_group_by_columns, elem_of_members.
    by exists g'. }
  destruct (Hvm g df v Hg Hdf Hv) as (mg & Hmg & Hvmg).
  destruct merged as [|first rest]; [done|].
  apply Forall_cons in Hcm as [Hcf Hcr]. rewrite Forall_forall in Hcr.
  destruct (merge_groups_Ok c _ _ _ Hm Hcf Hcr) as [_ ->].
  apply elem_of_app. apply elem_of_cons in Hmg as [->|Hmg]; [by left|right].
  apply list_elem_of_join. exists (column mg c). split; [done|].
  apply list_elem_of_fmap. by exists mg.
Qed.

(** ** The merged table *)

(** C4.  The full-union tier succeeds on every non-empty list of frames
    with duplicate-free labels (so whenever the frames share one column
    set), and whenever it succeeds: the merged frame has as many rows as
    the inputs together; its labels are the union of the inputs' labels,
    sorted and without repetition; its rows are numbered from 0; and
    each of its columns is the chain, in input order, of the inputs'
    columns of that label, a frame without the label contributing
    missing cells only. *)
Theorem full_union_merge_is_exact_union (dfs : list DataFrame) :
  Forall wf dfs →
  (dfs ≠ [] → Forall (λ df, NoDup (columns df)) dfs →
   ∃ m, full_union_merge dfs = Ok m) ∧
  ∀ m, full_union_merge dfs = Ok m →
    len m = sum_list (len <$> dfs) ∧
    Sorted String.le (columns m) ∧
    NoDup (columns m) ∧
    (∀ c, c ∈ columns m ↔ ∃ df, df ∈ dfs ∧ c ∈ columns df) ∧
    index m = seq 0 (len m) ∧
    (∀ c, c ∈ columns m →
       column m c = mjoin ((λ df, column df c) <$> dfs)) ∧
    (∀ df c, c ∉ columns df → column df c = replicate (len df) NaN).
Proof.
  intros Hwf. split; [intros; by apply full_union_merge_total|].
  intros m Hm.
  destruct (full_union_merge_Ok _ _ Hwf Hm) as (_ & Hcols & Hlen & Hidx & Hcol).
  split; [done|]. rewrite Hcols.
  split; [apply sorted_labels_Sorted|]. split; [apply sorted_labels_NoDup|].
  split; [intros c; by rewrite elem_of_sorted_labels, elem_of_all_columns_of|].
  split; [done|]. split; [by rewrite <- Hcols|].
  intros df c Hc. unfold column, len.
  induction (rows df) as [|r rs IH]; [done|].
  rewrite fmap_cons, IH, cell_at_absent by done. done.
Qed.

Lemma full_union_merge_is_exact_union_witness :
  ∃ m, full_union_merge [frame_xy; frame_yz] = Ok m ∧
       len m = 3 ∧
       columns m = ["Source_File"; "X"; "Y"; "Z"]%string ∧
       column m "X" = [z 1; z 3; NaN] ∧
       column m "Z" = [NaN; NaN; z 6].
Proof.
  destruct (full_union_merge_is_exact_union [frame_xy; frame_yz])
    as [Htotal Hspec]; [by_compute|].
  destruct Htotal as [m Hm]; [done|by_compute|].
  destruct (Hspec m Hm) as (Hlen & _ & _ & _ & _ & Hcol & _).
  assert (full_union_merge [frame_xy; frame_yz] =
          Ok (mkDF ["Source_File"; "X"; "Y"; "Z"]%string
                [(0, [Str "a.csv"; z 1; z 2; NaN]);
                 (1, [Str "a.csv"; z 3; z 4; NaN]);
                 (2, [Str "b.csv"; NaN; z 5; z 6])])) as E by by_compute.
  exists m. split; [done|]. split; [exact Hlen|].
  rewrite E in Hm. injection Hm as <-.
  split; [done|]. split; (rewrite Hcol; [by_compute|by_compute]).
Defined.

Lemma standardize_columns_tagged df file_name :
  wf df →
  wf (standardize_columns df file_name).1 ∧
  tagged file_name (standardize_columns df file_name).1.
Proof.
  intros Hwf. unfold standardize_columns. simpl.
  pose proof (wf_rename (build_new_columns (columns df)) df Hwf) as Hwfr.
  split; [by apply wf_setitem|]. split.
  - apply elem_of_columns_setitem. by right.
  - rewrite column_setitem_eq by done. rewrite Forall_fmap.
    by apply Forall_true.
Qed.

Lemma provenance_ok_setitem file_name c f df :
  c ≠ "Source_File"%string →
  provenance_ok file_name df → provenance_ok file_name (setitem c f df).
Proof.
  intros Hc (Hwf & Hin & Hall). split; [by apply wf_setitem|]. split.
  - apply elem_of_columns_setitem. by left.
  - by rewrite column_setitem_ne.
Qed.

Lemma provenance_ok_drop_duplicates file_name df :
  provenance_ok file_name df → provenance_ok file_name (drop_duplicates df).
Proof.
  intros (Hwf & Hin & Hall). split; [by apply wf_drop_duplicates|].
  split; [done|]. rewrite Forall_forall in *.
  intros v Hv%column_drop_duplicates. by apply Hall.
Qed.

Lemma provenance_ok_parse_dates file_name pd c df :
  c ≠ "Source_File"%string →
  provenance_ok file_name df → provenance_ok file_name (parse_dates pd c df).
Proof.
  intros Hc H. unfold parse_dates. case_decide; [|done].
  by apply provenance_ok_setitem.
Qed.

Lemma provenance_ok_coerce_numeric file_name pn cs df df' :
  Forall (λ c, c ≠ "Source_File"%string) cs →
  provenance_ok file_name df → coerce_numeric pn cs df = Ok df' →
  provenance_ok file_name df'.
Proof.
  intros Hcs. revert df. induction Hcs as [|c cs Hc _ IH]; intros df H.
  - by intros [= <-].
  - cbn [coerce_numeric]. case_decide; [|by apply IH].
    case_decide; [|done]. apply IH. by apply provenance_ok_setitem.
Qed.

Lemma provenance_ok_parse_date_columns file_name pd cs df :
  Forall (λ c, c ≠ "Source_File"%string) cs →
  provenance_ok file_name df →
  provenance_ok file_name (parse_date_columns pd cs df).
Proof.
  intros Hcs. revert df. unfold parse_date_columns.
  induction Hcs as [|c cs Hc _ IH]; intros df H; [done|].
  cbn [foldl]. apply IH. case_decide; [|done].
  by apply provenance_ok_parse_dates.
Qed.

Lemma cleaning_keeps_provenance file_name pd pn df df' :
  provenance_ok file_name df → basic_data_cleaning pd pn df = Ok df' →
  provenance_ok file_name df'.
Proof.
  intros H. unfold basic_data_cleaning. destruct (has_sales_data df).
  - destruct (fill_price df) as [df1|] eqn:E1; cbn [mbind result_bind]; [|done].
    assert (provenance_ok file_name df1) as H1.
    { unfold fill_price in E1. repeat case_decide; simplify_eq; [|done].
      destruct (as_numeric _); cbn in E1; simplify_eq.
      by apply provenance_ok_setitem. }
    destruct (fill_region df1) as [df2|] eqn:E2; cbn [mbind result_bind]; [|done].
    assert (provenance_ok file_name df2) as H2.
    { unfold fill_region in E2. repeat case_decide; simplify_eq; [|done].
      by apply provenance_ok_setitem. }
    destruct (clamp_quantity _) as [df5|] eqn:E5; cbn [mbind result_bind]; [|done].
    assert (provenance_ok file_name df5) as H5.
    { unfold clamp_quantity in E5. case_decide; [|done].
      destruct (as_numeric _); cbn in E5; simplify_eq.
      apply provenance_ok_setitem; [done|].
      by apply provenance_ok_parse_dates, provenance_ok_drop_duplicates. }
    destruct (derive_sales df5) as [df6|] eqn:E6; cbn [mbind result_bind]; [|done].
    assert (provenance_ok file_name df6) as H6.
    { unfold derive_sales in E6.
      destruct (traverse _ _); cbn in E6; simplify_eq.
      by apply provenance_ok_setitem. }
    apply provenance_ok_coerce_numeric; [|done]. by repeat constructor.
  - apply provenance_ok_coerce_numeric; [by repeat constructor|].
    apply provenance_ok_parse_date_columns; [|done]. by repeat constructor.
Qed.

(** A file that went through the mapper and the cleaner is tagged with
    its name, and keeps a row if it had one. *)
Lemma processed_file_is_tagged file_name pd pn raw df' :
  wf raw →
  basic_data_cleaning pd pn (standardize_columns raw file_name).1 = Ok df' →
  wf df' ∧ tagged file_name df'.
Proof.
  intros Hwf. apply cleaning_keeps_provenance.
  by apply standardize_columns_tagged.
Qed.

Lemma elem_of_prepare pf d :
  d ∈ prepare pf ↔
  ∃ name df, (name, df) ∈ pf ∧ 0 < len df ∧ d = prepare_one df.
Proof.
  unfold prepare. rewrite list_elem_of_omap. split.
  - intros ([name df] & Hin & Hd). case_decide; [|done]. simplify_eq.
    by exists name, df.
  - intros (name & df & Hin & Hlen & ->). exists (name, df).
    split; [done|]. by rewrite decide_True.
Qed.

Lemma combine_all_data_Some pf m :
  combine_all_data pf = Some m →
  full_union_merge (prepare pf) = Ok m ∨
  signature_grouped_merge (prepare pf) = Ok m.
Proof.
  unfold combine_all_data. destruct pf as [|p pf]; [done|].
  destruct (prepare (p :: pf)) as [|d ds]; [done|].
  destruct (full_union_merge (d :: ds)) as [m'|]; [intros [= <-]; by left|].
  destruct (signature_grouped_merge (d :: ds)) as [m'|]; [|done].
  intros [= <-]. by right.
Qed.

(** On the frames of the preparation loop the full-union tier always
    succeeds: the merge is unavailable only when no file has a row. *)
Lemma combine_all_data_full_union pf :
  Forall (λ p : string * DataFrame, wf p.2) pf →
  prepare pf ≠ [] →
  ∃ m, full_union_merge (prepare pf) = Ok m ∧ combine_all_data pf = Some m.
Proof.
  intros Hpf Hne. rewrite Forall_forall in Hpf.
  destruct (full_union_merge_total (prepare pf)) as [m Hm]; [done|..].
  - apply Forall_forall. intros d (n & df & Hin & _ & ->)%elem_of_prepare.
    apply prepare_one_facts, (Hpf _ Hin).
  - apply Forall_forall. intros d (n & df & Hin & _ & ->)%elem_of_prepare.
    apply prepare_one_facts, (Hpf _ Hin).
  - exists m. split; [done|]. unfold combine_all_data.
    destruct pf as [|p pf]; [done|].
    destruct (prepare (p :: pf)) as [|d ds]; [done|]. by rewrite Hm.
Qed.

(** C5, as stated, fails: a processed file with no row (a header and
    nothing else) is skipped by the first loop of [combine_all_data];
    the merge succeeds on the other files, and the name of the skipped
    file is nowhere in it. *)
Lemma empty_file_is_not_in_the_merge :
  ¬ (∀ pf m,
       Forall (λ p : string * DataFrame, wf p.2 ∧ tagged p.1 p.2) pf →
       combine_all_data pf = Some m →
       ∀ p, p ∈ pf → Str p.1 ∈ column m "Source_File").
Proof.
  intros H.
  pose (pf := [("a.csv", frame_xy); ("b.csv", header_only)]%string).
  pose (m := mkDF ["Source_File"; "X"; "Y"]%string
               [(0, [Str "a.csv"; z 1; z 2]); (1, [Str "a.csv"; z 3; z 4])]).
  assert (combine_all_data pf = Some m) as Hm by by_compute.
  assert (Str "b.csv" ∉ column m "Source_File") as Hb by by_compute.
  apply Hb. refine (H pf m _ Hm ("b.csv"%string, header_only) _).
  - unfold tagged. by_compute.
  - right. left.
Qed.

(** C5, amended.  Whenever the merge succeeds, by the full-union tier or
    by the signature-grouped tier, the name of every processed file that
    has at least one row is in the provenance column of the merged
    frame. *)
Theorem file_with_rows_is_in_the_merge
    (pf : list (string * DataFrame)) (m : DataFrame)
    (file_name : string) (df : DataFrame) :
  Forall (λ p : string * DataFrame, wf p.2 ∧ tagged p.1 p.2) pf →
  combine_all_data pf = Some m ∨
    full_union_merge (prepare pf) = Ok m ∨
    signature_grouped_merge (prepare pf) = Ok m →
  (file_name, df) ∈ pf →
  0 < len df →
  Str file_name ∈ column m "Source_File".
Proof.
  intros Hpf Hm Hin Hlen. rewrite Forall_forall in Hpf.
  assert (∀ d, d ∈ prepare pf →
            wf d ∧ "Source_File"%string ∈ columns d) as Hprep.
  { intros d (n' & df' & Hin' & _ & ->)%elem_of_prepare.
    destruct (Hpf _ Hin') as [Hwf [Hsf _]]. simpl in *.
    destruct (prepare_one_facts df' Hwf) as (? & _ & _ & Hc & _). auto. }
  destruct (Hpf _ Hin) as [Hwf [Hsf Hall]]. simpl in *.
  destruct (prepare_one_facts df Hwf) as (_ & _ & _ & _ & Hcol).
  assert (prepare_one df ∈ prepare pf) as Hd
    by (apply elem_of_prepare; by exists file_name, df).
  assert (Str file_name ∈ column (prepare_one df) "Source_File") as Hv.
  { rewrite Hcol. unfold column, len in *.
    destruct (rows df) as [|r rs]; [simpl in Hlen; lia|].
    rewrite fmap_cons in *. apply Forall_cons in Hall as [-> _]. left. }
  assert (full_union_merge (prepare pf) = Ok m ∨
          signature_grouped_merge (prepare pf) = Ok m) as [H1|H2].
  { destruct Hm as [Hm%combine_all_data_Some|[?|?]]; auto. }
  - destruct (full_union_merge_Ok (prepare pf) m)
      as (_ & Hcols & _ & _ & Hcolm); [|exact H1|].
    { apply Forall_forall. intros d Hd'. by apply Hprep. }
    rewrite Hcolm.
    + apply list_elem_of_join. eexists. split; [exact Hv|].
      apply list_elem_of_fmap. by exists (prepare_one df).
    + rewrite Hcols, elem_of_sorted_labels, elem_of_all_columns_of.
      exists (prepare_one df). split; [done|]. by apply Hprep.
  - eapply signature_grouped_merge_Ok; [exact H2| |exact Hd|exact Hv].
    intros d Hd'. by apply Hprep.
Qed.

Lemma file_with_rows_is_in_the_merge_witness :
  ∃ m, combine_all_data [("a.csv", frame_xy); ("b.csv", frame_yz)]%string
       = Some m ∧
       Str "b.csv" ∈ column m "Source_File".
Proof.
  destruct (combine_all_data [("a.csv", frame_xy); ("b.csv", frame_yz)]%string)
    as [m|] eqn:Hm; [|by vm_compute in Hm].
  exists m. split; [done|].
  apply (file_with_rows_is_in_the_merge
           [("a.csv", frame_xy); ("b.csv", frame_yz)]%string m "b.csv" frame_yz).
  - unfold tagged. by_compute.
  - by left.
  - by_compute.
  - vm_compute. lia.
Defined.

(** ** The batch driver *)

Section driver_facts.
Context {St Data : Type}.
Variable name_of : string → string.
Variable process_single_file : string → St → St * (Data + string).

Lemma recorded_path_process_entry cb i total p s :
  recorded_path (process_entry name_of process_single_file cb i total p s).2
  = p.
Proof.
  unfold process_entry. destruct (notify _ _ _ _ _) as [s1 [e|]]; [done|].
  by destruct (process_single_file p s1) as [s2 [d|e]].
Qed.

Lemma process_entry_None i total p s :
  process_entry name_of process_single_file None i total p s
  = ((process_single_file p s).1, outcome_of process_single_file p s).
Proof.
  unfold process_entry, outcome_of. simpl.
  by destruct (process_single_file p s) as [s2 [d|e]].
Qed.

Lemma process_loop_dom cb i total paths results s :
  dom (process_loop name_of process_single_file cb i total paths results s).2
  = dom results ∪ list_to_set (name_of <$> paths).
Proof.
  revert i results s. induction paths as [|p paths IH]; intros i results s.
  - simpl. by rewrite (right_id_L ∅ (∪)).
  - cbn [process_loop]. destruct (process_entry _ _ _ _ _ _ _) as [s1 o].
    rewrite IH, dom_insert_L, fmap_cons, list_to_set_cons.
    rewrite (comm_L (∪) {[name_of p]} (dom results)).
    by rewrite (assoc_L (∪)).
Qed.

Lemma process_loop_lookup cb i total paths results s k o :
  (process_loop name_of process_single_file cb i total paths results s).2
    !! k = Some o →
  results !! k = Some o ∨
  ∃ p, p ∈ paths ∧ name_of p = k ∧ recorded_path o = p.
Proof.
  revert i results s. induction paths as [|p paths IH]; intros i results s.
  - simpl. by left.
  - cbn [process_loop].
    pose proof (recorded_path_process_entry cb i total p s) as Hp.
    destruct (process_entry _ _ _ _ _ _ _) as [s1 o1]. simpl in Hp.
    intros [Hk|(p' & Hp' & Hn & Hr)]%IH.
    + destruct (decide (name_of p = k)) as [<-|Hne].
      * rewrite lookup_insert_eq in Hk. injection Hk as <-. right.
        exists p. split; [left|done].
      * rewrite lookup_insert_ne in Hk by done. by left.
    + right. exists p'. split; [by right|done].
Qed.

Lemma process_loop_size cb i total paths results s :
  NoDup (name_of <$> paths) →
  (∀ p, p ∈ paths → results !! name_of p = None) →
  size (process_loop name_of process_single_file cb i total paths results s).2
  = size results + length paths.
Proof.
  revert i results s. induction paths as [|p paths IH];
    intros i results s Hnd Hfresh.
  - simpl. lia.
  - cbn [process_loop]. destruct (process_entry _ _ _ _ _ _ _) as [s1 o].
    rewrite fmap_cons in Hnd. apply NoDup_cons in Hnd as [Hp Hnd].
    rewrite IH; [|done|].
    + rewrite map_size_insert_None by (apply Hfresh; left). simpl. lia.
    + intros p' Hp'. rewrite lookup_insert_ne; [apply Hfresh; by right|].
      intros E. apply Hp. rewrite E. apply list_elem_of_fmap. by exists p'.
Qed.

Lemma process_loop_state i total paths results s :
  (process_loop name_of process_single_file None i total paths results s).1
  = state_after process_single_file paths s.
Proof.
  revert i results s. induction paths as [|p paths IH]; intros i results s;
    [done|].
  cbn [process_loop]. rewrite process_entry_None. apply IH.
Qed.

Lemma process_loop_keeps i total paths results s k :
  k ∉ name_of <$> paths →
  (process_loop name_of process_single_file None i total paths results s).2
    !! k = results !! k.
Proof.
  revert i results s. induction paths as [|p paths IH]; intros i results s Hk;
    [done|].
  cbn [process_loop]. rewrite process_entry_None.
  rewrite fmap_cons, not_elem_of_cons in Hk. destruct Hk as [Hne Hk].
  rewrite IH by done. by rewrite lookup_insert_ne.
Qed.

Lemma process_loop_entry i total pre p suf results s :
  name_of p ∉ name_of <$> suf →
  (process_loop name_of process_single_file None i total
     (pre ++ p :: suf) results s).2 !! name_of p
  = Some (outcome_of process_single_file p (state_after process_single_file pre s)).
Proof.
  revert i results s. induction pre as [|q pre IH]; intros i results s Hp.
  - cbn [app process_loop]. rewrite process_entry_None.
    rewrite process_loop_keeps by done. by rewrite lookup_insert_eq.
  - cbn [app process_loop]. rewrite process_entry_None. by rewrite IH.
Qed.

End driver_facts.

(** C8, as stated, fails: the results are keyed by file name, so two
    paths with the same name share one entry, that of the later path. *)
Lemma same_name_shares_one_entry :
  ¬ (∀ (file_paths : list string) (s : nat) results,
       (process_multiple_files path_name second_file_fails file_paths None s).2
         = inl results →
       size results = length file_paths).
Proof.
  intros H.
  specialize (H ["data/north/sales.csv"; "data/south/sales.csv"]%string 0).
  destruct (process_multiple_files _ _ _ _ _) as [s' [results|e]] eqn:E;
    [|by vm_compute in E].
  specialize (H results eq_refl).
  assert (size results = 1) as Hsize.
  { vm_compute in E. injection E as _ <-. by vm_compute. }
  simpl in H. lia.
Qed.

(** C8, amended.  The batch returns a dictionary keyed by file name: its
    keys are the names of the input paths, every entry records a path
    of that name, and there is exactly one entry per input file when
    the names are pairwise distinct.  An exception can reach the caller
    only from the final progress notification, never from a file.
    Without a callback, every file is processed in the session the
    files before it left, whether they failed or not, and the entry of
    a file whose name no later file has is its own outcome: its data, or
    its path and the message of its exception. *)
Theorem batch_records_every_file_name
    {St Data : Type} (name_of : string → string)
    (process_single_file : string → St → St * (Data + string))
    (file_paths : list string) (progress_callback : option (@callback St))
    (s : St) :
  let run := process_multiple_files name_of process_single_file
               file_paths progress_callback s in
  (progress_callback = None → ∃ results, run.2 = inl results) ∧
  (∀ e, run.2 = inr e →
     ∃ f s', progress_callback = Some f ∧
       (f (length file_paths) (length file_paths) "所有文件处理完成" s').2
       = Some e) ∧
  ∀ results, run.2 = inl results →
    dom results = list_to_set (name_of <$> file_paths) ∧
    (∀ k o, results !! k = Some o →
       ∃ p, p ∈ file_paths ∧ name_of p = k ∧ recorded_path o = p) ∧
    (NoDup (name_of <$> file_paths) → size results = length file_paths) ∧
    (progress_callback = None →
     run.1 = state_after process_single_file file_paths s ∧
     ∀ pre p suf, file_paths = pre ++ p :: suf →
       name_of p ∉ name_of <$> suf →
       results !! name_of p
       = Some (outcome_of process_single_file p
                 (state_after process_single_file pre s))).
Proof.
  intros run. subst run. unfold process_multiple_files.
  destruct (process_loop _ _ _ _ _ _ _ _) as [s1 results1] eqn:Hloop.
  pose proof (process_loop_dom name_of process_single_file progress_callback
                1 (length file_paths) file_paths ∅ s) as Hdom.
  pose proof (process_loop_lookup name_of process_single_file progress_callback
                1 (length file_paths) file_paths ∅ s) as Hlook.
  pose proof (process_loop_size name_of process_single_file progress_callback
                1 (length file_paths) file_paths ∅ s) as Hsize.
  rewrite Hloop in Hdom, Hlook, Hsize. simpl in Hdom, Hlook, Hsize.
  split; [|split].
  - intros ->. simpl. by eexists.
  - intros e. destruct progress_callback as [f|]; simpl; [|done].
    destruct (f _ _ _ s1) as [s2 [e'|]] eqn:Hf; simpl; [|done].
    intros [= <-]. exists f, s1. by rewrite Hf.
  - intros results Hres.
    assert (results = results1) as ->.
    { destruct (notify _ _ _ _ _) as [s2 [e'|]]; simpl in Hres; [done|].
      by injection Hres. }
    split; [by rewrite Hdom, dom_empty_L, (left_id_L ∅ (∪))|].
    split.
    { intros k o [Hk|?]%Hlook; [|done]. by rewrite lookup_empty in Hk. }
    split.
    { intros Hnd. rewrite Hsize; [by rewrite map_size_empty|done|].
      intros p _. apply lookup_empty. }
    intros ->. simpl. split.
    + pose proof (process_loop_state name_of process_single_file
                    1 (length file_paths) file_paths ∅ s) as Hst.
      by rewrite Hloop in Hst.
    + intros pre p suf -> Hsuf.
      pose proof (process_loop_entry name_of process_single_file
                    1 (length (pre ++ p :: suf)) pre p suf ∅ s Hsuf) as He.
      by rewrite Hloop in He.
Qed.

Lemma batch_records_every_file_name_witness :
  ∃ results,
    (process_multiple_files path_name second_file_fails
       ["a/jan.csv"; "a/feb.csv"; "b/mar.csv"]%string None 0).2 = inl results ∧
    size results = 3 ∧
    results !! "feb.csv"%string = Some (Failed "boom" "a/feb.csv") ∧
    results !! "mar.csv"%string = Some (Success 2 "b/mar.csv").
Proof.
  destruct (batch_records_every_file_name path_name second_file_fails
              ["a/jan.csv"; "a/feb.csv"; "b/mar.csv"]%string None 0)
    as (Hret & _ & Hspec).
  destruct (Hret eq_refl) as [results Hres].
  destruct (Hspec results Hres) as (_ & _ & Hsize & Hentry).
  destruct (Hentry eq_refl) as [_ Hentry'].
  exists results. split; [exact Hres|]. split; [apply Hsize; by_compute|].
  split.
  - apply (Hentry' ["a/jan.csv"%string] "a/feb.csv"%string
             ["b/mar.csv"%string]); [reflexivity|by_compute].
  - apply (Hentry' ["a/jan.csv"; "a/feb.csv"]%string "b/mar.csv"%string []);
      [reflexivity|by_compute].
Defined.
